(** * The LV2 metronome example plugin ([plugins/eg-metro.lv2/metro.c])

    A shallow embedding of the plugin's instance record and of its
    [activate], [instantiate], [play], [update_position] and [run]
    functions, followed by the properties of the block renderer and of the
    transport synchroniser.

    Conventions of the embedding:
    - [uint32_t] values are integers in [0, 2^32); every C operation that
      wraps is written with [wrap32];
    - [float] and [double] are IEEE 754 binary32 and binary64 values, with
      the round-to-nearest-even operations of [SpecFloat];
    - the output port and the wave table are lists indexed from 0;
    - an execution whose behaviour the C standard leaves undefined (a
      conversion of an unrepresentable value, an access outside a buffer, a
      remainder by zero) has the outcome [Undefined]. *)

From Stdlib Require Import ZArith Lia Bool String.
From Stdlib Require Import SpecFloat.
From stdpp Require Import base tactics option list.

Local Open Scope Z_scope.

(** ** Outcomes *)

Inductive outcome (A : Type) : Type :=
  | Done (a : A)
  | Undefined.
Arguments Done {A} a.
Arguments Undefined {A}.

#[global] Instance outcome_ret : MRet outcome := @Done.
#[global] Instance outcome_bind : MBind outcome := fun A B f m =>
  match m with
  | Done a => f a
  | Undefined => Undefined
  end.

(** ** Machine integers *)

Definition uint32_t := Z.
Definition UINT32_MAX : Z := 4294967295.

(** Reduction modulo 2^32: unsigned arithmetic and conversions to
    [uint32_t] from wider integer types. *)
Definition wrap32 (z : Z) : uint32_t := z mod 4294967296.

Definition is_uint32 (z : Z) : Prop := 0 <= z <= UINT32_MAX.

(** [a % b] on [uint32_t]. *)
Definition urem (a b : uint32_t) : outcome uint32_t :=
  if b =? 0 then Undefined else Done (a mod b).

(** ** Floating point *)

Definition float := spec_float.
Definition double := spec_float.

Section Format.
Variables prec emax : Z.

(** Conversion of an integer, and of a value of another binary format. *)
Definition fmt_of_Z (z : Z) : spec_float := binary_normalize prec emax z 0 false.

Definition fmt_of_float (x : spec_float) : spec_float :=
  match x with
  | S754_finite s m e => binary_round prec emax s m e
  | _ => x
  end.
End Format.

Module Float.
Definition prec : Z := 24.
Definition emax : Z := 128.
Definition of_Z : Z -> float := fmt_of_Z prec emax.
Definition of_double : double -> float := fmt_of_float prec emax.
Definition sub : float -> float -> float := SFsub prec emax.
Definition mul : float -> float -> float := SFmul prec emax.
Definition div : float -> float -> float := SFdiv prec emax.
Definition eqb : float -> float -> bool := SFeqb.
Definition zero : float := S754_zero false.
End Float.

Module Double.
Definition prec : Z := 53.
Definition emax : Z := 1024.
Definition of_Z : Z -> double := fmt_of_Z prec emax.
Definition of_float : float -> double := fmt_of_float prec emax.
Definition mul : double -> double -> double := SFmul prec emax.
Definition div : double -> double -> double := SFdiv prec emax.
End Double.

(** The integral part of a finite value (truncation toward zero). *)
Definition integral_part (x : spec_float) : option Z :=
  match x with
  | S754_zero _ => Some 0
  | S754_finite s m e => Some (cond_Zopp s (Z.shiftl (Zpos m) e))
  | S754_infinity _ | S754_nan => None
  end.

(** Conversion of a floating value to [uint32_t]: the fractional part is
    discarded, and the behaviour is undefined when the integral part is not
    representable. *)
Definition to_uint32 (x : spec_float) : outcome uint32_t :=
  match integral_part x with
  | Some z => if (0 <=? z) && (z <=? UINT32_MAX) then Done z else Undefined
  | None => Undefined
  end.

(** [floorf] of the C library. *)
Definition floorf (x : float) : float :=
  match x with
  | S754_finite s m e =>
      if 0 <=? e then x
      else binary_normalize Float.prec Float.emax
             (Z.shiftl (cond_Zopp s (Zpos m)) e) 0 s
  | _ => x
  end.

(** ** Buffers *)

(** [buf[i]] as an rvalue and [buf[i] = v]. *)
Definition load {A} (buf : list A) (i : Z) : outcome A :=
  if i <? 0 then Undefined
  else match buf !! Z.to_nat i with
       | Some v => Done v
       | None => Undefined
       end.

Definition store {A} (buf : list A) (i : Z) (v : A) : outcome (list A) :=
  if (0 <=? i) && (i <? Z.of_nat (length buf))
  then Done (<[Z.to_nat i := v]> buf)
  else Undefined.

(** [memset(buf, 0, n * sizeof(float))]: the first [n] elements of [buf]
    become [0.0f]. *)
Definition memset_zero (buf : list float) (n : uint32_t) : outcome (list float) :=
  if n <=? Z.of_nat (length buf)
  then Done (replicate (Z.to_nat n) Float.zero ++ drop (Z.to_nat n) buf)
  else Undefined.

(** ** The instance *)

Definition LV2_URID := Z.

Record MetroURIs : Type := {
  atom_Blank : LV2_URID;
  atom_Float : LV2_URID;
  atom_Object : LV2_URID;
  atom_Path : LV2_URID;
  atom_Resource : LV2_URID;
  atom_Sequence : LV2_URID;
  time_Position : LV2_URID;
  time_barBeat : LV2_URID;
  time_beatsPerMinute : LV2_URID;
  time_speed : LV2_URID
}.

(** [attack_s = 0.005] and [decay_s = 0.075], as binary64 values. *)
Definition attack_s : double := S754_finite false 5764607523034235 (-60).
Definition decay_s : double := S754_finite false 5404319552844595 (-56).

Inductive State : Type :=
  | STATE_ATTACK
  | STATE_DECAY
  | STATE_OFF.

Record Metro : Type := {
  uris : MetroURIs;
  rate : double;
  bpm : float;
  speed : float;
  elapsed_len : uint32_t;
  wave_offset : uint32_t;
  state : State;
  wave : list float;
  wave_len : uint32_t;
  attack_len : uint32_t;
  decay_len : uint32_t
}.

Definition set_bpm (v : float) (self : Metro) : Metro :=
  {| uris := uris self; rate := rate self; bpm := v; speed := speed self;
     elapsed_len := elapsed_len self; wave_offset := wave_offset self;
     state := state self; wave := wave self; wave_len := wave_len self;
     attack_len := attack_len self; decay_len := decay_len self |}.

Definition set_speed (v : float) (self : Metro) : Metro :=
  {| uris := uris self; rate := rate self; bpm := bpm self; speed := v;
     elapsed_len := elapsed_len self; wave_offset := wave_offset self;
     state := state self; wave := wave self; wave_len := wave_len self;
     attack_len := attack_len self; decay_len := decay_len self |}.

Definition set_elapsed_len (v : uint32_t) (self : Metro) : Metro :=
  {| uris := uris self; rate := rate self; bpm := bpm self; speed := speed self;
     elapsed_len := v; wave_offset := wave_offset self;
     state := state self; wave := wave self; wave_len := wave_len self;
     attack_len := attack_len self; decay_len := decay_len self |}.

Definition set_wave_offset (v : uint32_t) (self : Metro) : Metro :=
  {| uris := uris self; rate := rate self; bpm := bpm self; speed := speed self;
     elapsed_len := elapsed_len self; wave_offset := v;
     state := state self; wave := wave self; wave_len := wave_len self;
     attack_len := attack_len self; decay_len := decay_len self |}.

Definition set_state (v : State) (self : Metro) : Metro :=
  {| uris := uris self; rate := rate self; bpm := bpm self; speed := speed self;
     elapsed_len := elapsed_len self; wave_offset := wave_offset self;
     state := v; wave := wave self; wave_len := wave_len self;
     attack_len := attack_len self; decay_len := decay_len self |}.

(** ** [activate] *)

Definition activate (self : Metro) : Metro :=
  set_state STATE_OFF (set_wave_offset 0 (set_elapsed_len 0 self)).

(** ** [play] *)

(** The instance together with the buffer connected to its output port. *)
Definition rendering : Type := Metro * list float.

(** [const uint32_t frames_per_beat = 60.0f / self->bpm * self->rate]: a
    [float] quotient, widened for the [double] product, then converted. *)
Definition play_frames_per_beat (self : Metro) : outcome uint32_t :=
  to_uint32
    (Double.mul (Double.of_float (Float.div (Float.of_Z 60) (bpm self)))
                (rate self)).

(** The envelope of the sample written in [STATE_ATTACK] and [STATE_DECAY]. *)
Definition attack_sample (self : Metro) (w : float) : float :=
  Float.div (Float.mul w (Float.of_Z (elapsed_len self)))
            (Float.of_Z (attack_len self)).

Definition decay_sample (self : Metro) (w : float) : float :=
  Float.mul w
    (Float.sub (Float.of_Z 1)
       (Float.div (Float.of_Z (wrap32 (elapsed_len self - attack_len self)))
                  (Float.of_Z (decay_len self)))).

(** The [switch (self->state)] of the loop body, for frame [i]. *)
Definition envelope (i : uint32_t) (st : rendering) : outcome rendering :=
  let '(self, output) := st in
  match state self with
  | STATE_ATTACK =>
      w ← load (wave self) (wave_offset self);
      output ← store output i (attack_sample self w);
      mret (if attack_len self <=? elapsed_len self
            then set_state STATE_DECAY self else self, output)
  | STATE_DECAY =>
      output ← store output i Float.zero;
      w ← load (wave self) (wave_offset self);
      output ← store output i (decay_sample self w);
      mret (if wrap32 (attack_len self + decay_len self) <=? elapsed_len self
            then set_state STATE_OFF self else self, output)
  | STATE_OFF =>
      output ← store output i Float.zero;
      mret (self, output)
  end.

(** [self->wave_offset = (self->wave_offset + 1) % self->wave_len]. *)
Definition advance_wave (self : Metro) : outcome Metro :=
  wo ← urem (wrap32 (wave_offset self + 1)) (wave_len self);
  mret (set_wave_offset wo self).

(** [if (++self->elapsed_len == frames_per_beat) { ... }]. *)
Definition advance_beat (frames_per_beat : uint32_t) (self : Metro) : Metro :=
  let self := set_elapsed_len (wrap32 (elapsed_len self + 1)) self in
  if elapsed_len self =? frames_per_beat
  then set_elapsed_len 0 (set_state STATE_ATTACK self)
  else self.

(** One iteration of the [for] loop. *)
Definition play_frame (frames_per_beat i : uint32_t) (st : rendering)
  : outcome rendering :=
  '(self, output) ← envelope i st;
  self ← advance_wave self;
  mret (advance_beat frames_per_beat self, output).

(** [n] iterations of the loop, from frame [i]. *)
Fixpoint play_loop (frames_per_beat : uint32_t) (n : nat) (i : uint32_t)
    (st : rendering) : outcome rendering :=
  match n with
  | O => mret st
  | S n' =>
      st' ← play_frame frames_per_beat i st;
      play_loop frames_per_beat n' (i + 1) st'
  end.

Definition play (self : Metro) (output : list float) (begin end_ : uint32_t)
  : outcome rendering :=
  frames_per_beat ← play_frames_per_beat self;
  if Float.eqb (speed self) Float.zero then
    output ← memset_zero output (wrap32 (end_ - begin));
    mret (self, output)
  else
    play_loop frames_per_beat (Z.to_nat (end_ - begin)) begin (self, output).

(** ** [update_position] *)

(** An atom as [update_position] reads it: its type, and its body read
    through [LV2_Atom_Float]. *)
Record LV2_Atom : Type := {
  atom_type : LV2_URID;
  atom_body : float
}.

(** The three pointers filled by [lv2_atom_object_get] (a helper of
    [lv2/atom/util.h]) for the keys [time_barBeat], [time_beatsPerMinute] and
    [time_speed] of the object: [None] is [NULL], the property is absent. *)
Record LV2_Atom_Object : Type := {
  obj_otype : LV2_URID;
  obj_beat : option LV2_Atom;
  obj_bpm : option LV2_Atom;
  obj_speed : option LV2_Atom
}.

(** [p && p->type == uris->atom_Float], giving the body to read. *)
Definition float_body (u : MetroURIs) (p : option LV2_Atom) : option float :=
  match p with
  | Some a => if atom_type a =? atom_Float u then Some (atom_body a) else None
  | None => None
  end.

(** [(float)(60.0 / self->bpm * self->rate)]: a [double] quotient and
    product, narrowed to [float]. *)
Definition sync_frames_per_beat (self : Metro) : float :=
  Float.of_double
    (Double.mul (Double.div (Double.of_Z 60) (Double.of_float (bpm self)))
                (rate self)).

(** The state chosen from the elapsed time at a synchronisation. *)
Definition sync_state (self : Metro) : State :=
  if elapsed_len self <? attack_len self then STATE_ATTACK
  else if elapsed_len self <? wrap32 (attack_len self + decay_len self)
       then STATE_DECAY
       else STATE_OFF.

Definition update_position (self : Metro) (obj : LV2_Atom_Object)
  : outcome Metro :=
  let self := match float_body (uris self) (obj_bpm obj) with
              | Some v => set_bpm v self
              | None => self
              end in
  let self := match float_body (uris self) (obj_speed obj) with
              | Some v => set_speed v self
              | None => self
              end in
  match float_body (uris self) (obj_beat obj) with
  | Some bar_beats =>
      let frames_per_beat := sync_frames_per_beat self in
      let beat_beats := Float.sub bar_beats (floorf bar_beats) in
      elapsed ← to_uint32 (Float.mul beat_beats frames_per_beat);
      let self := set_elapsed_len elapsed self in
      mret (set_state (sync_state self) self)
  | None => mret self
  end.

(** ** [run] *)

(** An event of the control sequence: its time stamp [time.frames] (an
    [int64_t]) and its body, of which [run] reads the type and, for an
    object, the object type and properties. *)
Record LV2_Atom_Event : Type := {
  time_frames : Z;
  body_type : LV2_URID;
  body : LV2_Atom_Object
}.

(** The body of the loop over the events. *)
Definition run_event (ev : LV2_Atom_Event) (last_t : uint32_t)
    (st : rendering) : outcome (uint32_t * rendering) :=
  let '(self, output) := st in
  '(self, output) ← play self output last_t (wrap32 (time_frames ev));
  self ← (if (body_type ev =? atom_Object (uris self))
             || (body_type ev =? atom_Blank (uris self))
          then if obj_otype (body ev) =? time_Position (uris self)
               then update_position self (body ev)
               else mret self
          else mret self);
  mret (wrap32 (time_frames ev), (self, output)).

Fixpoint run_events (control : list LV2_Atom_Event) (last_t : uint32_t)
    (st : rendering) : outcome (uint32_t * rendering) :=
  match control with
  | [] => mret (last_t, st)
  | ev :: control' =>
      '(last_t, st) ← run_event ev last_t st;
      run_events control' last_t st
  end.

(** [run], with the contents of the two connected ports passed explicitly:
    the control sequence is read, the output buffer is written. *)
Definition run (self : Metro) (control : list LV2_Atom_Event)
    (output : list float) (sample_count : uint32_t) : outcome rendering :=
  '(last_t, (self, output)) ← run_events control 0 (self, output);
  play self output last_t sample_count.

(** ** [instantiate] *)

(** What the host and the C library answer during [instantiate]: whether
    [calloc] and [malloc] return memory, the result of
    [lv2_features_query] (the URI of a missing required feature, or [None]
    for [NULL]), and the values [map->map] gives to the ten URIs. *)
Record Host : Type := {
  calloc_ok : bool;
  missing : option string;
  mapped : MetroURIs;
  malloc_ok : bool
}.

(** [M_PI] of [math.h], 0x1.921fb54442d18p+1. *)
Definition M_PI : double := S754_finite false 7074237752028440 (-51).

(** [freq = 440.0 * 2.0] and [amp = 0.5]. *)
Definition freq : double := Double.mul (Double.of_Z 440) (Double.of_Z 2).
Definition amp : double := S754_finite false 4503599627370496 (-53).

Section Instantiate.
(** [sin] of the C library. *)
Variable sin : double -> double.

(** [(float)(sin(i * 2 * M_PI * freq / rate) * amp)]. *)
Definition wave_sample (rate : double) (i : uint32_t) : float :=
  Float.of_double
    (Double.mul
       (sin (Double.div
               (Double.mul (Double.mul (Double.of_Z (wrap32 (i * 2))) M_PI) freq)
               rate))
       amp).

(** A [NULL] handle is [None]. *)
Definition instantiate (host : Host) (rate : double)
  : outcome (option Metro) :=
  if negb (calloc_ok host) then mret None
  else match missing host with
  | Some _ => mret None
  | None =>
      attack_len ← to_uint32 (Double.mul attack_s rate);
      decay_len ← to_uint32 (Double.mul decay_s rate);
      wave_len ← to_uint32 (Double.div rate freq);
      if negb (malloc_ok host) && (0 <? wave_len) then Undefined
      else
        mret (Some
          {| uris := mapped host;
             rate := rate;
             bpm := Float.of_Z 120;
             speed := Float.zero;
             elapsed_len := 0;
             wave_offset := 0;
             state := STATE_OFF;
             wave := (fun i : nat => wave_sample rate (Z.of_nat i))
                       <$> seq 0 (Z.to_nat wave_len);
             wave_len := wave_len;
             attack_len := attack_len;
             decay_len := decay_len |})
  end.
End Instantiate.

(** * Definitions used in the statements *)

(** The configuration of an instance: what [instantiate] fixes. *)
Definition same_config (a b : Metro) : Prop :=
  uris a = uris b /\ rate a = rate b /\ wave a = wave b /\
  wave_len a = wave_len b /\ attack_len a = attack_len b /\
  decay_len a = decay_len b.

(** The transport as the host last reported it. *)
Definition same_transport (a b : Metro) : Prop :=
  bpm a = bpm b /\ speed a = speed b.

(** The instance after the tempo and speed properties have been read. *)
Definition with_transport (self : Metro) (obj : LV2_Atom_Object) : Metro :=
  let self := match float_body (uris self) (obj_bpm obj) with
              | Some v => set_bpm v self
              | None => self
              end in
  match float_body (uris self) (obj_speed obj) with
  | Some v => set_speed v self
  | None => self
  end.

(** The hard synchronisation to a beat position. *)
Definition resync (self : Metro) (bar_beats : float) : outcome Metro :=
  elapsed ← to_uint32 (Float.mul (Float.sub bar_beats (floorf bar_beats))
                                 (sync_frames_per_beat self));
  mret (set_state (sync_state (set_elapsed_len elapsed self))
                  (set_elapsed_len elapsed self)).

(** [self->wave[self->wave_offset]]. *)
Definition current_wave (self : Metro) : float :=
  default Float.zero (wave self !! Z.to_nat (wave_offset self)).

(** The sample a frame writes, the state its [switch] leaves, and the
    instance at the end of the frame. *)
Definition frame_sample (self : Metro) : float :=
  match state self with
  | STATE_ATTACK => attack_sample self (current_wave self)
  | STATE_DECAY => decay_sample self (current_wave self)
  | STATE_OFF => Float.zero
  end.

Definition envelope_state (self : Metro) : State :=
  match state self with
  | STATE_ATTACK =>
      if attack_len self <=? elapsed_len self then STATE_DECAY else STATE_ATTACK
  | STATE_DECAY =>
      if wrap32 (attack_len self + decay_len self) <=? elapsed_len self
      then STATE_OFF else STATE_DECAY
  | STATE_OFF => STATE_OFF
  end.

Definition next_state (frames_per_beat : uint32_t) (self : Metro) : Metro :=
  advance_beat frames_per_beat
    (set_wave_offset ((wave_offset self + 1) mod wave_len self)
       (set_state (envelope_state self) self)).

(** The samples of [n] consecutive frames. *)
Fixpoint rendered (frames_per_beat : uint32_t) (n : nat) (self : Metro)
  : list float :=
  match n with
  | O => []
  | S n' =>
      frame_sample self :: rendered frames_per_beat n' (next_state frames_per_beat self)
  end.

(** The cursor is an index of the wave table. *)
Definition wave_offset_in_range (self : Metro) : Prop :=
  0 <= wave_offset self < wave_len self.

(** The wave table has [wave_len] samples and the cursor is inside it. *)
Definition playable (self : Metro) : Prop :=
  Z.of_nat (length (wave self)) = wave_len self /\
  wave_len self <= UINT32_MAX /\
  0 <= wave_offset self < wave_len self.

(** The counters of the envelope are 32-bit values, the envelope length
    [attack_len + decay_len] does not overflow, and the decay was entered at
    or after the end of the attack. *)
Definition envelope_ok (self : Metro) : Prop :=
  is_uint32 (elapsed_len self) /\
  is_uint32 (attack_len self) /\
  is_uint32 (decay_len self) /\
  attack_len self + decay_len self <= UINT32_MAX /\
  (state self = STATE_DECAY -> attack_len self <= elapsed_len self).

(** What [instantiate] establishes for a usable sample rate and every
    operation keeps: the cursor is inside the wave table, the envelope
    counters are 32-bit values, and the state agrees with the elapsed time
    (the attack lasts until [attack_len], the decay starts there). *)
Definition well_formed (self : Metro) : Prop :=
  playable self /\
  envelope_ok self /\
  attack_len self < UINT32_MAX /\
  (state self = STATE_ATTACK -> elapsed_len self <= attack_len self).

(** The specification's length of the wave table for a rate of [r] Hz: the
    quotient [r / 880] rounded to the nearest integer. *)
Definition spec_rounded_wave_len (r : Z) : Z := (2 * r + 880) / (2 * 880).

(** The sample rates in common use. *)
Definition common_rates : list Z :=
  [8000; 11025; 16000; 22050; 32000; 44100; 48000; 88200; 96000; 176400; 192000].

(** The test of [run] on an event: an Object (or Blank) whose type is
    [time:Position]; only such an event reaches [update_position]. *)
Definition is_position (u : MetroURIs) (ev : LV2_Atom_Event) : bool :=
  ((body_type ev =? atom_Object u) || (body_type ev =? atom_Blank u))
  && (obj_otype (body ev) =? time_Position u).

(** The time stamps of a control sequence do not decrease, start at or
    after [last] and stay within the block of [n] frames. *)
Fixpoint in_order (last n : Z) (control : list LV2_Atom_Event) : Prop :=
  match control with
  | [] => last <= n
  | ev :: control' =>
      last <= time_frames ev <= n /\ in_order (time_frames ev) n control'
  end.

(** The state in which the frame [k] of a beat is rendered when the beat
    started with an attack: the attack covers the frames 0 to [attack_len],
    the decay the next [decay_len] frames. *)
Definition tick_state (self : Metro) (k : Z) : State :=
  if k <=? attack_len self then STATE_ATTACK
  else if k <=? attack_len self + decay_len self then STATE_DECAY
  else STATE_OFF.

(** A zero or a finite number: neither an infinity nor a NaN. *)
Definition is_finite (x : spec_float) : bool :=
  match x with
  | S754_zero _ | S754_finite _ _ _ => true
  | S754_infinity _ | S754_nan => false
  end.

(** ** Instances used in the examples *)

Definition example_uris : MetroURIs :=
  {| atom_Blank := 1; atom_Float := 2; atom_Object := 3; atom_Path := 4;
     atom_Resource := 5; atom_Sequence := 6; time_Position := 7;
     time_barBeat := 8; time_beatsPerMinute := 9; time_speed := 10 |}.

Definition example_host : Host :=
  {| calloc_ok := true; missing := None; mapped := example_uris;
     malloc_ok := true |}.

(** [1.0f], a sample that is not silence. *)
Definition one : float := Float.of_Z 1.

(** [0.5f] and [1.5f]. *)
Definition half : float := Float.div (Float.of_Z 1) (Float.of_Z 2).
Definition three_halves : float := Float.div (Float.of_Z 3) (Float.of_Z 2).

(** An instance at 48 kHz and 120 beats per minute, with a wave of four
    samples, as [activate] leaves it and with the transport stopped. *)
Definition stopped_48k : Metro :=
  {| uris := example_uris;
     rate := Double.of_Z 48000;
     bpm := Float.of_Z 120;
     speed := Float.zero;
     elapsed_len := 0;
     wave_offset := 0;
     state := STATE_OFF;
     wave := [Float.zero; half; Float.zero; SFopp half];
     wave_len := 4;
     attack_len := 240;
     decay_len := 3600 |}.

(** The same instance with the transport rolling. *)
Definition rolling_48k : Metro := set_speed (Float.of_Z 1) stopped_48k.

(** An instance whose beat lasts three frames: 2 Hz and 40 beats per
    minute, with one frame of attack and one of decay. *)
Definition rolling_3 : Metro :=
  {| uris := example_uris;
     rate := Double.of_Z 2;
     bpm := Float.of_Z 40;
     speed := Float.of_Z 1;
     elapsed_len := 0;
     wave_offset := 0;
     state := STATE_OFF;
     wave := [half; SFopp half];
     wave_len := 2;
     attack_len := 1;
     decay_len := 1 |}.

Definition float_atom (v : float) : LV2_Atom :=
  {| atom_type := atom_Float example_uris; atom_body := v |}.

(** A [time:Position] object carrying the given properties. *)
Definition position (beat bpm speed : option float) : LV2_Atom_Object :=
  {| obj_otype := time_Position example_uris;
     obj_beat := float_atom <$> beat;
     obj_bpm := float_atom <$> bpm;
     obj_speed := float_atom <$> speed |}.

Definition event_at (t : Z) (obj : LV2_Atom_Object) : LV2_Atom_Event :=
  {| time_frames := t; body_type := atom_Object example_uris; body := obj |}.

(** An event that is not an object: an atom of type [atom:Path]. *)
Definition path_event_at (t : Z) : LV2_Atom_Event :=
  {| time_frames := t; body_type := atom_Path example_uris;
     body := position None None None |}.

(** An atom that is not a Float. *)
Definition path_atom : LV2_Atom :=
  {| atom_type := atom_Path example_uris; atom_body := Float.zero |}.

(** * Properties *)

(** ** Outcomes, integers and buffers *)

Lemma bind_Done {A B} (f : A -> outcome B) (m : outcome A) (b : B) :
  m ≫= f = Done b -> exists a, m = Done a /\ f a = Done b.
Proof. destruct m as [a|]; [eauto | discriminate]. Qed.

Lemma wrap32_small (z : Z) : is_uint32 z -> wrap32 z = z.
Proof. unfold is_uint32, UINT32_MAX, wrap32. intros H. apply Z.mod_small. lia. Qed.

Lemma wrap32_range (z : Z) : is_uint32 (wrap32 z).
Proof.
  unfold is_uint32, UINT32_MAX, wrap32.
  pose proof (Z.mod_pos_bound z 4294967296). lia.
Qed.

Lemma to_uint32_range (x : spec_float) (z : uint32_t) :
  to_uint32 x = Done z -> is_uint32 z.
Proof.
  unfold to_uint32, is_uint32. destruct (integral_part x) as [y|]; [|discriminate].
  destruct (0 <=? y) eqn:H0; destruct (y <=? UINT32_MAX) eqn:H1; simpl;
    try discriminate.
  intros [= <-]. lia.
Qed.

Lemma urem_Done (a b r : uint32_t) :
  urem a b = Done r -> b <> 0 /\ r = a mod b.
Proof.
  unfold urem. destruct (b =? 0) eqn:Hb; [discriminate|].
  intros [= <-]. split; [lia | reflexivity].
Qed.

Lemma load_lookup {A} (buf : list A) (i : Z) (v : A) :
  0 <= i -> buf !! Z.to_nat i = Some v -> load buf i = Done v.
Proof.
  intros Hi Hv. unfold load. destruct (i <? 0) eqn:E; [lia|]. now rewrite Hv.
Qed.

Lemma store_in_range {A} (buf : list A) (i : Z) (v : A) :
  0 <= i < Z.of_nat (length buf) ->
  store buf i v = Done (<[Z.to_nat i := v]> buf).
Proof.
  intros Hi. unfold store.
  destruct (0 <=? i) eqn:E0; destruct (i <? Z.of_nat (length buf)) eqn:E1;
    simpl; try lia; reflexivity.
Qed.

Lemma store_Done {A} (buf buf' : list A) (i : Z) (v : A) :
  store buf i v = Done buf' ->
  0 <= i < Z.of_nat (length buf) /\ buf' = <[Z.to_nat i := v]> buf.
Proof.
  unfold store.
  destruct (0 <=? i) eqn:E0; destruct (i <? Z.of_nat (length buf)) eqn:E1;
    simpl; try discriminate.
  intros [= <-]. split; [lia | reflexivity].
Qed.

(** ** Fields that rendering and synchronisation never write *)

Lemma same_config_refl (a : Metro) : same_config a a.
Proof. repeat split. Qed.

Lemma same_config_trans (a b c : Metro) :
  same_config a b -> same_config b c -> same_config a c.
Proof. unfold same_config. intuition congruence. Qed.

Lemma same_transport_trans (a b c : Metro) :
  same_transport a b -> same_transport b c -> same_transport a c.
Proof. unfold same_transport. intuition congruence. Qed.

Lemma envelope_Done (i : uint32_t) (self self' : Metro) (output output' : list float) :
  envelope i (self, output) = Done (self', output') ->
  same_config self self' /\ same_transport self self' /\
  elapsed_len self' = elapsed_len self /\ wave_offset self' = wave_offset self /\
  length output' = length output.
Proof.
  unfold envelope. destruct (state self).
  - intros H. apply bind_Done in H as (w & _ & H).
    apply bind_Done in H as (o & Ho & H). apply store_Done in Ho as [_ ->].
    injection H as <- <-. rewrite length_insert.
    destruct (attack_len self <=? elapsed_len self); repeat split.
  - intros H. apply bind_Done in H as (o0 & Ho0 & H).
    apply bind_Done in H as (w & _ & H).
    apply bind_Done in H as (o & Ho & H).
    apply store_Done in Ho0 as [_ ->]. apply store_Done in Ho as [_ ->].
    injection H as <- <-. rewrite !length_insert.
    destruct (wrap32 (attack_len self + decay_len self) <=? elapsed_len self);
      repeat split.
  - intros H. apply bind_Done in H as (o & Ho & H).
    apply store_Done in Ho as [_ ->]. injection H as <- <-.
    rewrite length_insert. repeat split.
Qed.

Lemma advance_beat_config (frames_per_beat : uint32_t) (self : Metro) :
  same_config self (advance_beat frames_per_beat self) /\
  same_transport self (advance_beat frames_per_beat self) /\
  wave_offset (advance_beat frames_per_beat self) = wave_offset self.
Proof.
  unfold advance_beat. simpl.
  destruct (wrap32 (elapsed_len self + 1) =? frames_per_beat); repeat split.
Qed.

Lemma play_frame_Done (frames_per_beat i : uint32_t) (self self' : Metro)
    (output output' : list float) :
  play_frame frames_per_beat i (self, output) = Done (self', output') ->
  same_config self self' /\ same_transport self self' /\
  length output' = length output /\
  wave_len self <> 0 /\
  wave_offset self' = wrap32 (wave_offset self + 1) mod wave_len self.
Proof.
  unfold play_frame. intros H.
  apply bind_Done in H as ([s1 o1] & He & H).
  apply envelope_Done in He as (Hc & Ht & _ & Hw & Hl).
  apply bind_Done in H as (s2 & Ha & H).
  unfold advance_wave in Ha. apply bind_Done in Ha as (wo & Hwo & Ha).
  apply urem_Done in Hwo as [Hne ->]. injection Ha as <-. injection H as <- <-.
  destruct (advance_beat_config frames_per_beat
              (set_wave_offset (wrap32 (wave_offset s1 + 1) mod wave_len s1) s1))
    as (Hc' & Ht' & Hw').
  destruct Hc as (? & ? & ? & Hwl & ? & ?).
  split; [|split; [|split; [|split]]].
  - eapply same_config_trans; [|exact Hc']. repeat split; simpl; assumption.
  - eapply same_transport_trans; [|exact Ht']. exact Ht.
  - exact Hl.
  - congruence.
  - rewrite Hw'. simpl. congruence.
Qed.

Lemma play_loop_Done (frames_per_beat : uint32_t) (n : nat) :
  forall (i : uint32_t) (self self' : Metro) (output output' : list float),
  play_loop frames_per_beat n i (self, output) = Done (self', output') ->
  same_config self self' /\ same_transport self self' /\
  length output' = length output.
Proof.
  induction n as [|n IH]; intros i self self' output output' H.
  - injection H as <- <-. repeat split.
  - simpl in H. apply bind_Done in H as ([s1 o1] & Hf & H).
    apply play_frame_Done in Hf as (Hc & Ht & Hl & _).
    apply IH in H as (Hc' & Ht' & Hl').
    split; [|split].
    + eapply same_config_trans; eassumption.
    + eapply same_transport_trans; eassumption.
    + congruence.
Qed.

(** ** The transport synchroniser *)

Lemma update_position_unfold (self : Metro) (obj : LV2_Atom_Object) :
  update_position self obj =
  match float_body (uris self) (obj_beat obj) with
  | Some bar_beats => resync (with_transport self obj) bar_beats
  | None => Done (with_transport self obj)
  end.
Proof.
  unfold update_position, with_transport, resync.
  destruct (float_body (uris self) (obj_bpm obj)); simpl;
    destruct (float_body (uris self) (obj_speed obj)); reflexivity.
Qed.

Lemma with_transport_fields (self : Metro) (obj : LV2_Atom_Object) :
  same_config self (with_transport self obj) /\
  elapsed_len (with_transport self obj) = elapsed_len self /\
  wave_offset (with_transport self obj) = wave_offset self /\
  state (with_transport self obj) = state self /\
  bpm (with_transport self obj)
    = default (bpm self) (float_body (uris self) (obj_bpm obj)) /\
  speed (with_transport self obj)
    = default (speed self) (float_body (uris self) (obj_speed obj)).
Proof.
  unfold with_transport.
  destruct (float_body (uris self) (obj_bpm obj)); simpl;
    destruct (float_body (uris self) (obj_speed obj)); repeat split.
Qed.

Lemma with_transport_idem (self : Metro) (obj : LV2_Atom_Object) :
  with_transport (with_transport self obj) obj = with_transport self obj.
Proof.
  unfold with_transport.
  destruct (float_body (uris self) (obj_bpm obj)) eqn:Hb; simpl;
    destruct (float_body (uris self) (obj_speed obj)) eqn:Hs; simpl;
    rewrite ?Hb, ?Hs; simpl; rewrite ?Hs; reflexivity.
Qed.

Lemma resync_Done (self self' : Metro) (bar_beats : float) :
  resync self bar_beats = Done self' ->
  same_config self self' /\ same_transport self self' /\
  wave_offset self' = wave_offset self /\
  to_uint32 (Float.mul (Float.sub bar_beats (floorf bar_beats))
                       (sync_frames_per_beat self)) = Done (elapsed_len self') /\
  state self' = sync_state self'.
Proof.
  unfold resync. intros H. apply bind_Done in H as (e & He & H).
  injection H as <-. rewrite He. repeat split.
Qed.

Lemma update_position_Done (self self' : Metro) (obj : LV2_Atom_Object) :
  update_position self obj = Done self' ->
  same_config self self' /\ wave_offset self' = wave_offset self.
Proof.
  rewrite update_position_unfold.
  destruct (with_transport_fields self obj) as (Hc & _ & Hw & _).
  destruct (float_body (uris self) (obj_beat obj)).
  - intros H. apply resync_Done in H as (Hc' & _ & Hw' & _). split.
    + eapply same_config_trans; eassumption.
    + congruence.
  - intros [= <-]. split; assumption.
Qed.

Lemma with_transport_set (self : Metro) (obj : LV2_Atom_Object)
    (e : uint32_t) (st : State) :
  with_transport (set_state st (set_elapsed_len e self)) obj
  = set_state st (set_elapsed_len e (with_transport self obj)).
Proof.
  unfold with_transport. simpl.
  destruct (float_body (uris self) (obj_bpm obj)); simpl;
    destruct (float_body (uris self) (obj_speed obj)); reflexivity.
Qed.

(** C8. Applying the same transport message twice in immediate succession
    leaves the instance exactly as applying it once does: the second
    [update_position] returns the state the first one produced (and an
    application that is undefined stays undefined). *)
Theorem update_position_idempotent (self : Metro) (obj : LV2_Atom_Object) :
  (update_position self obj ≫= fun self' => update_position self' obj)
  = update_position self obj.
Proof.
  rewrite update_position_unfold.
  destruct (with_transport_fields self obj) as ((Hu & _) & _).
  destruct (float_body (uris self) (obj_beat obj)) as [bar_beats|] eqn:Hbeat.
  - unfold resync.
    destruct (to_uint32
                (Float.mul (Float.sub bar_beats (floorf bar_beats))
                   (sync_frames_per_beat (with_transport self obj))))
      as [e|] eqn:He; [|reflexivity].
    change (update_position
              (set_state (sync_state (set_elapsed_len e (with_transport self obj)))
                 (set_elapsed_len e (with_transport self obj))) obj
            = Done (set_state (sync_state (set_elapsed_len e (with_transport self obj)))
                      (set_elapsed_len e (with_transport self obj)))).
    rewrite update_position_unfold. simpl uris at 1.
    rewrite <- Hu, Hbeat, with_transport_set, with_transport_idem.
    unfold resync.
    change (sync_frames_per_beat (set_state _ (set_elapsed_len e ?s)))
      with (sync_frames_per_beat s).
    rewrite He. reflexivity.
  - change (update_position (with_transport self obj) obj
            = Done (with_transport self obj)).
    rewrite update_position_unfold.
    rewrite <- Hu, Hbeat, with_transport_idem. reflexivity.
Qed.

(** C6. A transport message is applied in the order tempo, speed, beat
    position.  When the beat position is present, and the envelope length
    [attack_len + decay_len] fits [uint32_t]: [bpm] is the tempo of the
    message if it has one, [elapsed_len] is the fractional beat times the
    frames per beat computed from that (possibly new) [bpm], the state is
    attack below [attack_len], decay below [attack_len + decay_len] and off
    otherwise, and [wave_offset] is untouched.  At 48000 Hz and 120 beats per
    minute, with an attack of 240 and a decay of 3600 frames, the position
    1.5 gives [elapsed_len = 12000] and [STATE_OFF]. *)
Theorem update_position_resync :
  (forall (self : Metro) (obj : LV2_Atom_Object) (bar_beats : float)
          (elapsed : uint32_t),
     float_body (uris self) (obj_beat obj) = Some bar_beats ->
     is_uint32 (attack_len self + decay_len self) ->
     let tempo := default (bpm self) (float_body (uris self) (obj_bpm obj)) in
     let frames_per_beat :=
       Float.of_double
         (Double.mul (Double.div (Double.of_Z 60) (Double.of_float tempo))
                     (rate self)) in
     to_uint32 (Float.mul (Float.sub bar_beats (floorf bar_beats))
                          frames_per_beat) = Done elapsed ->
     exists self',
       update_position self obj = Done self' /\
       bpm self' = tempo /\
       speed self' = default (speed self) (float_body (uris self) (obj_speed obj)) /\
       elapsed_len self' = elapsed /\
       state self' = (if elapsed <? attack_len self then STATE_ATTACK
                      else if elapsed <? attack_len self + decay_len self
                           then STATE_DECAY
                           else STATE_OFF) /\
       wave_offset self' = wave_offset self) /\
  (forall (self : Metro) (obj : LV2_Atom_Object),
     rate self = Double.of_Z 48000 ->
     bpm self = Float.of_Z 120 ->
     attack_len self = 240 ->
     decay_len self = 3600 ->
     float_body (uris self) (obj_bpm obj) = None ->
     float_body (uris self) (obj_beat obj) = Some three_halves ->
     exists self',
       update_position self obj = Done self' /\
       elapsed_len self' = 12000 /\
       state self' = STATE_OFF /\
       wave_offset self' = wave_offset self).
Proof.
  assert (General : forall (self : Metro) (obj : LV2_Atom_Object)
            (bar_beats : float) (elapsed : uint32_t),
     float_body (uris self) (obj_beat obj) = Some bar_beats ->
     is_uint32 (attack_len self + decay_len self) ->
     to_uint32 (Float.mul (Float.sub bar_beats (floorf bar_beats))
        (Float.of_double
           (Double.mul
              (Double.div (Double.of_Z 60)
                 (Double.of_float
                    (default (bpm self) (float_body (uris self) (obj_bpm obj)))))
              (rate self)))) = Done elapsed ->
     exists self',
       update_position self obj = Done self' /\
       bpm self' = default (bpm self) (float_body (uris self) (obj_bpm obj)) /\
       speed self' = default (speed self) (float_body (uris self) (obj_speed obj)) /\
       elapsed_len self' = elapsed /\
       state self' = (if elapsed <? attack_len self then STATE_ATTACK
                      else if elapsed <? attack_len self + decay_len self
                           then STATE_DECAY
                           else STATE_OFF) /\
       wave_offset self' = wave_offset self).
  { intros self obj bar_beats elapsed Hbeat Hsum He.
    rewrite update_position_unfold, Hbeat.
    destruct (with_transport_fields self obj)
      as ((_ & Hrate & _ & _ & Hat & Hde) & _ & Hwo & _ & Hbpm & Hspeed).
    unfold resync, sync_frames_per_beat. rewrite Hbpm, <- Hrate, He.
    eexists. split; [reflexivity|]. simpl.
    unfold sync_state. simpl. rewrite <- Hat, <- Hde.
    rewrite (wrap32_small _ Hsum). repeat split; assumption. }
  split.
  - intros self obj bar_beats elapsed Hbeat Hsum tempo frames_per_beat He.
    apply (General self obj bar_beats elapsed Hbeat Hsum He).
  - intros self obj Hrate Hbpm Hat Hde Htempo Hbeat.
    destruct (General self obj three_halves 12000 Hbeat) as (self' & H).
    + rewrite Hat, Hde. unfold is_uint32, UINT32_MAX. lia.
    + rewrite Htempo, Hrate. simpl default. rewrite Hbpm. reflexivity.
    + exists self'. rewrite Hat, Hde in H.
      destruct H as (H1 & _ & _ & H2 & H3 & H4). repeat split; assumption.
Qed.

(** At 48000 Hz the instance resynchronised at position 1.5 takes the
    tempo of the message first: with a tempo of 60 in the same message,
    12000 frames become 24000. *)
Lemma update_position_resync_witness :
  exists self',
    update_position stopped_48k
      (position (Some three_halves) (Some (Float.of_Z 60)) None) = Done self' /\
    bpm self' = Float.of_Z 60 /\
    speed self' = Float.zero /\
    elapsed_len self' = 24000 /\
    state self' = STATE_OFF /\
    wave_offset self' = 0.
Proof.
  apply (proj1 update_position_resync stopped_48k
           (position (Some three_halves) (Some (Float.of_Z 60)) None)
           three_halves 24000).
  - reflexivity.
  - unfold is_uint32, UINT32_MAX. simpl. lia.
  - reflexivity.
Defined.

(** ** The wave offset *)

Lemma play_loop_wave_offset (frames_per_beat : uint32_t) (n : nat) :
  forall (i : uint32_t) (self self' : Metro) (output output' : list float),
  0 < wave_len self -> wave_offset_in_range self ->
  play_loop frames_per_beat n i (self, output) = Done (self', output') ->
  wave_offset_in_range self'.
Proof.
  induction n as [|n IH]; intros i self self' output output' Hlen Hin H.
  - injection H as <- <-. exact Hin.
  - simpl in H. apply bind_Done in H as ([s1 o1] & Hf & H).
    apply play_frame_Done in Hf as ((_ & _ & _ & Hwl & _) & _ & _ & _ & Hwo).
    apply IH in H; [exact H | lia |].
    unfold wave_offset_in_range. rewrite Hwo, <- Hwl.
    apply Z.mod_pos_bound. exact Hlen.
Qed.

Lemma play_stopped (self self' : Metro) (output output' : list float)
    (begin end_ : uint32_t) :
  Float.eqb (speed self) Float.zero = true ->
  play self output begin end_ = Done (self', output') ->
  self' = self /\
  output' = replicate (Z.to_nat (wrap32 (end_ - begin))) Float.zero
              ++ drop (Z.to_nat (wrap32 (end_ - begin))) output.
Proof.
  intros Hs H. unfold play in H. apply bind_Done in H as (f & _ & H).
  rewrite Hs in H. apply bind_Done in H as (o & Ho & H).
  injection H as <- <-. split; [reflexivity|].
  unfold memset_zero in Ho.
  destruct (wrap32 (end_ - begin) <=? Z.of_nat (length output)); [|discriminate].
  now injection Ho as <-.
Qed.

Lemma play_rolling (self : Metro) (output : list float) (begin end_ : uint32_t)
    (frames_per_beat : uint32_t) :
  Float.eqb (speed self) Float.zero = false ->
  play_frames_per_beat self = Done frames_per_beat ->
  play self output begin end_
  = play_loop frames_per_beat (Z.to_nat (end_ - begin)) begin (self, output).
Proof. intros Hs Hf. unfold play. rewrite Hf. simpl. now rewrite Hs. Qed.

(** C9. When the wave is not empty and [wave_offset] is below [wave_len],
    it is still below [wave_len] after [activate], after [play] on any range
    and at any speed, and after [update_position] with any message. *)
Theorem wave_offset_invariant (self : Metro) :
  0 < wave_len self ->
  wave_offset_in_range self ->
  wave_offset_in_range (activate self) /\
  (forall (output output' : list float) (begin end_ : uint32_t) (self' : Metro),
     play self output begin end_ = Done (self', output') ->
     wave_offset_in_range self') /\
  (forall (obj : LV2_Atom_Object) (self' : Metro),
     update_position self obj = Done self' ->
     wave_offset_in_range self').
Proof.
  intros Hlen Hin. split; [|split].
  - unfold wave_offset_in_range. simpl. lia.
  - intros output output' begin end_ self' H.
    destruct (Float.eqb (speed self) Float.zero) eqn:Hs.
    + apply (play_stopped _ _ _ _ _ _ Hs) in H as [-> _]. exact Hin.
    + unfold play in H. apply bind_Done in H as (f & _ & H). rewrite Hs in H.
      eapply play_loop_wave_offset; eassumption.
  - intros obj self' H.
    apply update_position_Done in H as ((_ & _ & _ & Hwl & _) & Hwo).
    unfold wave_offset_in_range in *. rewrite Hwo, <- Hwl. exact Hin.
Qed.

(** The three operations on the instance with a beat of three frames,
    whose wave has two samples. *)
Lemma wave_offset_invariant_witness :
  wave_offset_in_range (activate rolling_3) /\
  (forall (output output' : list float) (begin end_ : uint32_t) (self' : Metro),
     play rolling_3 output begin end_ = Done (self', output') ->
     wave_offset_in_range self') /\
  (forall (obj : LV2_Atom_Object) (self' : Metro),
     update_position rolling_3 obj = Done self' ->
     wave_offset_in_range self').
Proof.
  apply (wave_offset_invariant rolling_3).
  - simpl. lia.
  - unfold wave_offset_in_range. simpl. lia.
Defined.

(** ** Rendering with the transport stopped *)

(** C1. With the transport stopped, [play] on the range [2, 4) of a block
    of four samples leaves the instance unchanged but clears the samples 0
    and 1: the samples 2 and 3 of the range keep what the buffer held. *)
Theorem play_stopped_clears_block_start :
  play stopped_48k [one; one; one; one] 2 4
  = Done (stopped_48k, [Float.zero; Float.zero; one; one]).
Proof. vm_compute. reflexivity. Qed.

(** C2. A block of four frames with one event at frame 2 and the transport
    stopped: [run] renders the slices [0, 2) and [2, 4), and both clear the
    samples 0 and 1; the samples 2 and 3 are never written. *)
Theorem run_stopped_skips_block_end :
  run stopped_48k [event_at 2 (position None None None)] [one; one; one; one] 4
  = Done (stopped_48k, [Float.zero; Float.zero; one; one]).
Proof. vm_compute. reflexivity. Qed.

(** ** Construction *)

(** With memory and the host features at hand, [instantiate] returns an
    instance as soon as the three lengths derived from the rate fit
    [uint32_t]. *)
Lemma instantiate_succeeds (sin : double -> double) (host : Host)
    (rate : double) (a d w : uint32_t) :
  calloc_ok host = true -> missing host = None -> malloc_ok host = true ->
  to_uint32 (Double.mul attack_s rate) = Done a ->
  to_uint32 (Double.mul decay_s rate) = Done d ->
  to_uint32 (Double.div rate freq) = Done w ->
  exists self,
    instantiate sin host rate = Done (Some self) /\
    attack_len self = a /\ decay_len self = d /\ wave_len self = w.
Proof.
  intros Hc Hm Hw Ha Hd Hl. unfold instantiate.
  rewrite Hc, Hm, Ha, Hd, Hl, Hw. simpl. eexists. split; [reflexivity|].
  repeat split.
Qed.

(** C3. [instantiate] does not look at the sample rate to decide whether it
    fails.  It returns [NULL] exactly when [calloc] fails or a required host
    feature is missing.  When both succeed, [malloc] returns memory and the
    three lengths derived from the rate fit [uint32_t], it returns an instance
    with these lengths, whatever the sign of the rate. *)
Theorem instantiate_failure (sin : double -> double) (host : Host) (rate : double) :
  (instantiate sin host rate = Done None <->
   calloc_ok host = false \/ missing host <> None) /\
  (forall a d w : uint32_t,
     calloc_ok host = true -> missing host = None -> malloc_ok host = true ->
     to_uint32 (Double.mul attack_s rate) = Done a ->
     to_uint32 (Double.mul decay_s rate) = Done d ->
     to_uint32 (Double.div rate freq) = Done w ->
     exists self,
       instantiate sin host rate = Done (Some self) /\
       attack_len self = a /\ decay_len self = d /\ wave_len self = w).
Proof.
  split.
  - unfold instantiate. destruct (calloc_ok host); cbn [negb].
    + destruct (missing host) as [uri|].
      * split; [intros _; right; discriminate | reflexivity].
      * split.
        -- intros H. exfalso.
           destruct (to_uint32 (Double.mul attack_s rate)); [|discriminate].
           destruct (to_uint32 (Double.mul decay_s rate)); [|discriminate].
           destruct (to_uint32 (Double.div rate freq)) as [w|]; [|discriminate].
           cbn [mbind outcome_bind] in H.
           destruct (negb (malloc_ok host) && (0 <? w)); discriminate.
        -- intros [H|H]; [discriminate | now destruct H].
    + split; [intros _; now left | reflexivity].
  - intros a d w. apply instantiate_succeeds.
Qed.

(** At 44100 Hz: 220 frames of attack, 3307 of decay, a wave of 50. *)
Lemma instantiate_failure_witness :
  exists self,
    instantiate (fun x => x) example_host (Double.of_Z 44100) = Done (Some self) /\
    attack_len self = 220 /\ decay_len self = 3307 /\ wave_len self = 50.
Proof.
  apply (proj2 (instantiate_failure (fun x => x) example_host (Double.of_Z 44100)));
    reflexivity.
Defined.

(** C3, as the specification states it, fails at the rate 0 (and at -1):
    construction succeeds and gives an instance with an empty wave. *)
Lemma instantiate_accepts_nonpositive_rate :
  (exists self,
     instantiate (fun x => x) example_host (Double.of_Z 0) = Done (Some self) /\
     wave self = []) /\
  (exists self,
     instantiate (fun x => x) example_host (Double.of_Z (-1)) = Done (Some self) /\
     wave self = []).
Proof. split; eexists; (split; [vm_compute; reflexivity | reflexivity]). Qed.

Lemma freq_880 : freq = Double.of_Z 880.
Proof. reflexivity. Qed.

(** C7. The wave table has as many samples as the integral part of the
    [double] quotient of the sample rate by 880 Hz: the quotient is truncated,
    not rounded.  For the sample rates in common use this is the integer
    quotient of the rate by 880. *)
Theorem wave_len_truncated (sin : double -> double) (host : Host) :
  (forall (rate : double) (self : Metro),
     instantiate sin host rate = Done (Some self) ->
     to_uint32 (Double.div rate (Double.of_Z 880)) = Done (wave_len self) /\
     Z.of_nat (length (wave self)) = wave_len self) /\
  (forall (r : Z) (self : Metro),
     r ∈ common_rates ->
     instantiate sin host (Double.of_Z r) = Done (Some self) ->
     wave_len self = r / 880 /\ Z.of_nat (length (wave self)) = r / 880).
Proof.
  assert (General : forall (rate : double) (self : Metro),
     instantiate sin host rate = Done (Some self) ->
     to_uint32 (Double.div rate (Double.of_Z 880)) = Done (wave_len self) /\
     Z.of_nat (length (wave self)) = wave_len self).
  { intros rate self. unfold instantiate.
    destruct (negb (calloc_ok host)); [discriminate|].
    destruct (missing host); [discriminate|].
    destruct (to_uint32 (Double.mul attack_s rate)); [|discriminate].
    destruct (to_uint32 (Double.mul decay_s rate)); [|discriminate].
    rewrite <- freq_880.
    destruct (to_uint32 (Double.div rate freq)) as [w|] eqn:Hw; [|discriminate].
    simpl. destruct (negb (malloc_ok host) && (0 <? w)); [discriminate|].
    intros [= <-]. simpl. split; [reflexivity|].
    rewrite length_fmap, length_seq. apply to_uint32_range in Hw.
    unfold is_uint32 in Hw. lia. }
  split; [exact General|].
  intros r self Hr H. apply General in H as [Hw Hl]. rewrite Hl.
  assert (E : to_uint32 (Double.div (Double.of_Z r) (Double.of_Z 880))
              = Done (r / 880)).
  { unfold common_rates in Hr.
    repeat (apply elem_of_cons in Hr as [-> | Hr]; [reflexivity|]).
    now apply elem_of_nil in Hr. }
  rewrite E in Hw. now injection Hw as <-.
Qed.

(** At 48000 Hz the wave has 54 samples. *)
Lemma wave_len_truncated_witness :
  exists self : Metro,
    instantiate (fun x => x) example_host (Double.of_Z 48000) = Done (Some self) /\
    wave_len self = 48000 / 880 /\
    Z.of_nat (length (wave self)) = 48000 / 880.
Proof.
  eexists. split; [vm_compute; reflexivity|].
  apply (proj2 (wave_len_truncated (fun x => x) example_host) 48000).
  - unfold common_rates. do 6 apply list_elem_of_further. apply list_elem_of_here.
  - vm_compute. reflexivity.
Defined.

(** C7, as the specification states it, fails at 48000 Hz: the wave has 54
    samples, and 48000 / 880 = 54.5454... rounds to 55. *)
Lemma wave_len_not_rounded :
  exists self,
    instantiate (fun x => x) example_host (Double.of_Z 48000) = Done (Some self) /\
    wave_len self = 54 /\
    length (wave self) = 54%nat /\
    spec_rounded_wave_len 48000 = 55 /\
    wave_len self <> spec_rounded_wave_len 48000.
Proof.
  eexists. split; [vm_compute; reflexivity|]. repeat split. discriminate.
Qed.

(** ** One frame of the rendering loop *)

Lemma set_state_same (self : Metro) : set_state (state self) self = self.
Proof. now destruct self. Qed.

Lemma playable_lookup (self : Metro) :
  playable self ->
  wave self !! Z.to_nat (wave_offset self) = Some (current_wave self).
Proof.
  intros (Hl & _ & Hw). unfold current_wave.
  destruct (lookup_lt_is_Some_2 (wave self) (Z.to_nat (wave_offset self)))
    as [w Hw']; [lia|]. now rewrite Hw'.
Qed.

Lemma envelope_eq (i : uint32_t) (self : Metro) (output : list float) :
  playable self ->
  0 <= i < Z.of_nat (length output) ->
  envelope i (self, output)
  = Done (set_state (envelope_state self) self,
          <[Z.to_nat i := frame_sample self]> output).
Proof.
  intros Hp Hi. pose proof (playable_lookup self Hp) as Hw.
  destruct Hp as (_ & _ & Hwo).
  unfold envelope, envelope_state, frame_sample.
  destruct (state self) eqn:Hst.
  - rewrite (load_lookup _ _ _ (proj1 Hwo) Hw). cbn [mbind outcome_bind].
    rewrite (store_in_range _ _ _ Hi). cbn [mbind outcome_bind mret outcome_ret].
    destruct (attack_len self <=? elapsed_len self); [reflexivity|].
    now rewrite <- Hst, set_state_same.
  - rewrite (store_in_range _ _ _ Hi). cbn [mbind outcome_bind].
    rewrite (load_lookup _ _ _ (proj1 Hwo) Hw). cbn [mbind outcome_bind].
    rewrite store_in_range by (rewrite length_insert; exact Hi).
    cbn [mbind outcome_bind mret outcome_ret]. rewrite list_insert_insert_eq.
    destruct (wrap32 (attack_len self + decay_len self) <=? elapsed_len self);
      [reflexivity|].
    now rewrite <- Hst, set_state_same.
  - rewrite (store_in_range _ _ _ Hi). cbn [mbind outcome_bind mret outcome_ret].
    now rewrite <- Hst, set_state_same.
Qed.

Lemma play_frame_eq (frames_per_beat i : uint32_t) (self : Metro)
    (output : list float) :
  playable self ->
  0 <= i < Z.of_nat (length output) ->
  play_frame frames_per_beat i (self, output)
  = Done (next_state frames_per_beat self,
          <[Z.to_nat i := frame_sample self]> output).
Proof.
  intros Hp Hi. unfold play_frame. rewrite (envelope_eq _ _ _ Hp Hi).
  cbn [mbind outcome_bind]. unfold advance_wave, urem. simpl wave_len.
  simpl wave_offset. destruct Hp as (_ & Hmax & Hwo).
  destruct (wave_len self =? 0) eqn:E; [lia|].
  rewrite wrap32_small by (unfold is_uint32; lia). reflexivity.
Qed.

Lemma playable_next (frames_per_beat : uint32_t) (self : Metro) :
  playable self -> playable (next_state frames_per_beat self).
Proof.
  intros (Hl & Hmax & Hwo). unfold next_state.
  destruct (advance_beat_config frames_per_beat
              (set_wave_offset ((wave_offset self + 1) mod wave_len self)
                 (set_state (envelope_state self) self)))
    as ((_ & _ & Hw & Hwl & _) & _ & Hoff).
  unfold playable. rewrite <- Hw, <- Hwl, Hoff. simpl.
  repeat split; try assumption; apply Z.mod_pos_bound; lia.
Qed.

Lemma next_state_elapsed (frames_per_beat : uint32_t) (self : Metro) :
  elapsed_len (next_state frames_per_beat self)
  = (if wrap32 (elapsed_len self + 1) =? frames_per_beat then 0
     else wrap32 (elapsed_len self + 1)) /\
  state (next_state frames_per_beat self)
  = (if wrap32 (elapsed_len self + 1) =? frames_per_beat then STATE_ATTACK
     else envelope_state self) /\
  wave_offset (next_state frames_per_beat self)
  = (wave_offset self + 1) mod wave_len self.
Proof.
  unfold next_state, advance_beat. simpl.
  destruct (wrap32 (elapsed_len self + 1) =? frames_per_beat); repeat split.
Qed.

Lemma next_state_config (frames_per_beat : uint32_t) (self : Metro) :
  same_config self (next_state frames_per_beat self) /\
  same_transport self (next_state frames_per_beat self).
Proof.
  unfold next_state.
  destruct (advance_beat_config frames_per_beat
              (set_wave_offset ((wave_offset self + 1) mod wave_len self)
                 (set_state (envelope_state self) self))) as (Hc & Ht & _).
  split.
  - eapply same_config_trans; [|exact Hc]. repeat split.
  - eapply same_transport_trans; [|exact Ht]. repeat split.
Qed.

(** ** The rendering loop *)

Lemma play_loop_app (frames_per_beat : uint32_t) (n m : nat) :
  forall (i : uint32_t) (st : rendering),
  play_loop frames_per_beat (n + m) i st
  = play_loop frames_per_beat n i st
      ≫= play_loop frames_per_beat m (i + Z.of_nat n).
Proof.
  induction n as [|n IH]; intros i st.
  - simpl. now rewrite Z.add_0_r.
  - cbn [Nat.add play_loop].
    destruct (play_frame frames_per_beat i st) as [st'|]; [|reflexivity].
    cbn [mbind outcome_bind]. rewrite IH. do 2 f_equal. lia.
Qed.

(** [n] frames from frame [i], inside the buffer: the instance steps [n]
    times, and exactly the samples [i], ..., [i + n - 1] are replaced. *)
Lemma play_loop_eq (frames_per_beat : uint32_t) (n : nat) :
  forall (i : uint32_t) (self : Metro) (output : list float),
  playable self ->
  0 <= i -> i + Z.of_nat n <= Z.of_nat (length output) ->
  play_loop frames_per_beat n i (self, output)
  = Done (Nat.iter n (next_state frames_per_beat) self,
          take (Z.to_nat i) output ++ rendered frames_per_beat n self
            ++ drop (Z.to_nat i + n) output).
Proof.
  induction n as [|n IH]; intros i self output Hp Hi Hn.
  - simpl. rewrite Nat.add_0_r, take_drop. reflexivity.
  - cbn [play_loop]. rewrite play_frame_eq by (auto; lia).
    cbn [mbind outcome_bind].
    rewrite IH; [|now apply playable_next | lia | rewrite length_insert; lia].
    rewrite <- Nat.iter_succ_r. f_equal. f_equal.
    replace (Z.to_nat (i + 1)) with (S (Z.to_nat i)) by lia.
    rewrite (take_S_r _ _ (frame_sample self))
      by (apply list_lookup_insert_eq; lia).
    rewrite take_insert_ge by lia. rewrite drop_insert_lt by lia.
    rewrite <- app_assoc. cbn [rendered app].
    replace (S (Z.to_nat i) + n)%nat with (Z.to_nat i + S n)%nat by lia.
    reflexivity.
Qed.

Lemma iter_next_config (frames_per_beat : uint32_t) (n : nat) (self : Metro) :
  same_config self (Nat.iter n (next_state frames_per_beat) self) /\
  same_transport self (Nat.iter n (next_state frames_per_beat) self).
Proof.
  induction n as [|n [IHc IHt]]; [repeat split|]. cbn [Nat.iter].
  destruct (next_state_config frames_per_beat
              (Nat.iter n (next_state frames_per_beat) self)) as [Hc Ht].
  split; [eapply same_config_trans | eapply same_transport_trans]; eassumption.
Qed.

Lemma iter_next_playable (frames_per_beat : uint32_t) (n : nat) (self : Metro) :
  playable self -> playable (Nat.iter n (next_state frames_per_beat) self).
Proof.
  intros Hp. induction n as [|n IH]; [exact Hp|]. cbn [Nat.iter].
  now apply playable_next.
Qed.

Lemma play_frames_per_beat_config (a b : Metro) :
  same_config a b -> same_transport a b ->
  play_frames_per_beat b = play_frames_per_beat a.
Proof.
  intros (_ & Hr & _) (Hb & _). unfold play_frames_per_beat.
  now rewrite Hr, Hb.
Qed.

Lemma length_rendered (frames_per_beat : uint32_t) (n : nat) :
  forall self : Metro, length (rendered frames_per_beat n self) = n.
Proof. induction n as [|n IH]; intros self; simpl; [|rewrite IH]; reflexivity. Qed.

(** With the transport rolling, a call of [play] on [begin, end_) is the
    call on [begin, middle) followed by the call on [middle, end_). *)
Lemma play_split (self : Metro) (output : list float)
    (begin middle end_ : uint32_t) :
  Float.eqb (speed self) Float.zero = false ->
  begin <= middle <= end_ ->
  play self output begin end_
  = play self output begin middle
      ≫= fun '(self', output') => play self' output' middle end_.
Proof.
  intros Hs Hm.
  destruct (play_frames_per_beat self) as [f|] eqn:Hf.
  - rewrite !(play_rolling self output _ _ f Hs Hf).
    replace (Z.to_nat (end_ - begin))
      with (Z.to_nat (middle - begin) + Z.to_nat (end_ - middle))%nat by lia.
    rewrite play_loop_app.
    destruct (play_loop f (Z.to_nat (middle - begin)) begin (self, output))
      as [[self' output']|] eqn:Hl; [|reflexivity].
    cbn [mbind outcome_bind].
    apply play_loop_Done in Hl as (Hc & Ht & _).
    rewrite (play_rolling self' output' middle end_ f).
    + f_equal. lia.
    + destruct Ht as [_ <-]. exact Hs.
    + now rewrite (play_frames_per_beat_config _ _ Hc Ht).
  - unfold play. rewrite Hf. reflexivity.
Qed.

(** With the transport rolling, a call of [play] inside the buffer writes
    exactly the samples of its range: those before [begin] and from [end_] on
    keep their values. *)
Lemma play_rolling_range (self : Metro) (output : list float)
    (begin end_ frames_per_beat : uint32_t) :
  Float.eqb (speed self) Float.zero = false ->
  play_frames_per_beat self = Done frames_per_beat ->
  playable self ->
  0 <= begin <= end_ -> end_ <= Z.of_nat (length output) ->
  play self output begin end_
  = Done (Nat.iter (Z.to_nat (end_ - begin)) (next_state frames_per_beat) self,
          take (Z.to_nat begin) output
            ++ rendered frames_per_beat (Z.to_nat (end_ - begin)) self
            ++ drop (Z.to_nat end_) output).
Proof.
  intros Hs Hf Hp Hb He. rewrite (play_rolling _ _ _ _ _ Hs Hf).
  rewrite play_loop_eq by (auto; lia).
  replace (Z.to_nat begin + Z.to_nat (end_ - begin))%nat with (Z.to_nat end_)
    by lia.
  reflexivity.
Qed.

(** At 48000 Hz and 120 beats per minute a beat lasts 24000 frames. *)
Lemma play_frames_per_beat_48k : play_frames_per_beat rolling_48k = Done 24000.
Proof. vm_compute. reflexivity. Qed.

(** ** The envelope *)

Lemma play_one_frame (self : Metro) (output : list float)
    (i frames_per_beat : uint32_t) :
  Float.eqb (speed self) Float.zero = false ->
  play_frames_per_beat self = Done frames_per_beat ->
  playable self ->
  0 <= i < Z.of_nat (length output) ->
  play self output i (i + 1)
  = Done (next_state frames_per_beat self,
          <[Z.to_nat i := frame_sample self]> output).
Proof.
  intros Hs Hf Hp Hi. rewrite (play_rolling _ _ _ _ _ Hs Hf).
  replace (Z.to_nat (i + 1 - i)) with 1%nat by lia.
  cbn [play_loop]. rewrite play_frame_eq by assumption. reflexivity.
Qed.

(** C4. A frame rendered with the transport rolling writes the sample of
    the current state: in the attack [wave[wave_offset] * elapsed_len /
    attack_len], after which the [switch] moves to the decay once
    [elapsed_len >= attack_len]; in the decay [wave[wave_offset] * (1 -
    (elapsed_len - attack_len) / decay_len)], after which it moves to off once
    [elapsed_len >= attack_len + decay_len]; when off, silence.  In the three
    states [wave_offset] becomes [(wave_offset + 1) mod wave_len].  The state
    at the end of the frame is the one the [switch] left, unless the beat
    check of the same frame starts the next attack. *)
Theorem play_frame_envelope (self : Metro) (output : list float)
    (i frames_per_beat : uint32_t) :
  Float.eqb (speed self) Float.zero = false ->
  play_frames_per_beat self = Done frames_per_beat ->
  playable self ->
  envelope_ok self ->
  0 <= i < Z.of_nat (length output) ->
  exists (w : float) (self1 self' : Metro),
    wave self !! Z.to_nat (wave_offset self) = Some w /\
    let sample :=
      match state self with
      | STATE_ATTACK =>
          Float.div (Float.mul w (Float.of_Z (elapsed_len self)))
                    (Float.of_Z (attack_len self))
      | STATE_DECAY =>
          Float.mul w
            (Float.sub (Float.of_Z 1)
               (Float.div (Float.of_Z (elapsed_len self - attack_len self))
                          (Float.of_Z (decay_len self))))
      | STATE_OFF => Float.zero
      end in
    let phase :=
      match state self with
      | STATE_ATTACK =>
          if attack_len self <=? elapsed_len self then STATE_DECAY
          else STATE_ATTACK
      | STATE_DECAY =>
          if attack_len self + decay_len self <=? elapsed_len self
          then STATE_OFF else STATE_DECAY
      | STATE_OFF => STATE_OFF
      end in
    envelope i (self, output) = Done (self1, <[Z.to_nat i := sample]> output) /\
    state self1 = phase /\
    play self output i (i + 1) = Done (self', <[Z.to_nat i := sample]> output) /\
    wave_offset self' = (wave_offset self + 1) mod wave_len self /\
    state self' = (if wrap32 (elapsed_len self + 1) =? frames_per_beat
                   then STATE_ATTACK else phase).
Proof.
  intros Hs Hf Hp (He & Ha & Hd & Hsum & Hdecay) Hi.
  exists (current_wave self), (set_state (envelope_state self) self),
         (next_state frames_per_beat self).
  split; [now apply playable_lookup|]. cbn zeta.
  assert (Esample : frame_sample self
                    = match state self with
                      | STATE_ATTACK =>
                          Float.div
                            (Float.mul (current_wave self)
                               (Float.of_Z (elapsed_len self)))
                            (Float.of_Z (attack_len self))
                      | STATE_DECAY =>
                          Float.mul (current_wave self)
                            (Float.sub (Float.of_Z 1)
                               (Float.div
                                  (Float.of_Z (elapsed_len self - attack_len self))
                                  (Float.of_Z (decay_len self))))
                      | STATE_OFF => Float.zero
                      end).
  { unfold frame_sample, attack_sample, decay_sample.
    destruct (state self); try reflexivity.
    rewrite wrap32_small; [reflexivity|].
    specialize (Hdecay eq_refl). unfold is_uint32 in *. lia. }
  assert (Ephase : envelope_state self
                   = match state self with
                     | STATE_ATTACK =>
                         if attack_len self <=? elapsed_len self
                         then STATE_DECAY else STATE_ATTACK
                     | STATE_DECAY =>
                         if attack_len self + decay_len self <=? elapsed_len self
                         then STATE_OFF else STATE_DECAY
                     | STATE_OFF => STATE_OFF
                     end).
  { unfold envelope_state. destruct (state self); try reflexivity.
    rewrite wrap32_small; [reflexivity|]. unfold is_uint32 in *. lia. }
  rewrite <- Esample, <- Ephase.
  destruct (next_state_elapsed frames_per_beat self) as (_ & Hst & Hwo).
  split; [now apply envelope_eq|]. split; [reflexivity|].
  split; [now apply play_one_frame|]. split; assumption.
Qed.

(** The second frame of the attack at 48000 Hz: the sample is
    [wave[1] * 1 / 240]. *)
Lemma play_frame_envelope_witness :
  exists (w : float) (self1 self' : Metro),
    wave rolling_48k !! 1%nat = Some w /\
    envelope 0 (set_state STATE_ATTACK (set_elapsed_len 1 (set_wave_offset 1 rolling_48k)),
                [one; one])
    = Done (self1, [Float.div (Float.mul w (Float.of_Z 1)) (Float.of_Z 240); one]) /\
    state self1 = STATE_ATTACK /\
    play (set_state STATE_ATTACK (set_elapsed_len 1 (set_wave_offset 1 rolling_48k)))
         [one; one] 0 1
    = Done (self', [Float.div (Float.mul w (Float.of_Z 1)) (Float.of_Z 240); one]) /\
    wave_offset self' = 2 /\
    state self' = STATE_ATTACK.
Proof.
  apply (play_frame_envelope
           (set_state STATE_ATTACK (set_elapsed_len 1 (set_wave_offset 1 rolling_48k)))
           [one; one] 0 24000).
  - reflexivity.
  - reflexivity.
  - unfold playable, UINT32_MAX. simpl. lia.
  - unfold envelope_ok, is_uint32, UINT32_MAX. simpl.
    repeat split; try lia. discriminate.
  - simpl. lia.
Defined.

(** ** The beat *)

(** Silence before the beat: [k] frames in [STATE_OFF] that end before
    [elapsed_len] reaches the frames per beat. *)
Lemma off_run (frames_per_beat : uint32_t) (k : nat) :
  forall self : Metro,
  state self = STATE_OFF ->
  0 <= elapsed_len self ->
  elapsed_len self + Z.of_nat k < frames_per_beat ->
  frames_per_beat <= UINT32_MAX ->
  state (Nat.iter k (next_state frames_per_beat) self) = STATE_OFF /\
  elapsed_len (Nat.iter k (next_state frames_per_beat) self)
    = elapsed_len self + Z.of_nat k /\
  rendered frames_per_beat k self = replicate k Float.zero.
Proof.
  induction k as [|k IH]; intros self Hst He Hk Hmax.
  - simpl. split; [assumption|]. split; [lia | reflexivity].
  - rewrite Nat.iter_succ_r. cbn [rendered replicate].
    destruct (next_state_elapsed frames_per_beat self) as (He' & Hst' & _).
    rewrite wrap32_small in He', Hst' by (unfold is_uint32; lia).
    destruct (elapsed_len self + 1 =? frames_per_beat) eqn:E; [lia|].
    assert (Hoff : envelope_state self = STATE_OFF)
      by (unfold envelope_state; now rewrite Hst).
    destruct (IH (next_state frames_per_beat self)) as (H1 & H2 & H3);
      try (rewrite ?Hst', ?He'; first [assumption | lia]).
    rewrite H1, H2, H3, He'. unfold frame_sample. rewrite Hst.
    repeat split; lia.
Qed.

(** C5. With the transport rolling, every frame increments [elapsed_len],
    and the frame in which it reaches the frames per beat resets it to 0 and
    forces [STATE_ATTACK].  From [STATE_OFF] with [elapsed_len = 0], a call of
    [play] that covers a whole beat writes silence to the [frames_per_beat]
    frames of the beat and goes on, in the same call and from the very next
    frame, in [STATE_ATTACK] with [elapsed_len = 0]. *)
Theorem play_beat_boundary (self : Metro) (output : list float)
    (frames_per_beat : uint32_t) :
  Float.eqb (speed self) Float.zero = false ->
  play_frames_per_beat self = Done frames_per_beat ->
  playable self ->
  (forall i : uint32_t,
     0 <= i < Z.of_nat (length output) ->
     exists (self' : Metro) (output' : list float),
       play self output i (i + 1) = Done (self', output') /\
       (wrap32 (elapsed_len self + 1) = frames_per_beat ->
        elapsed_len self' = 0 /\ state self' = STATE_ATTACK) /\
       (wrap32 (elapsed_len self + 1) <> frames_per_beat ->
        elapsed_len self' = wrap32 (elapsed_len self + 1))) /\
  (forall begin end_ : uint32_t,
     state self = STATE_OFF ->
     elapsed_len self = 0 ->
     0 < frames_per_beat ->
     0 <= begin ->
     begin + frames_per_beat <= end_ <= Z.of_nat (length output) ->
     exists (middle : Metro) (output' : list float),
       play self output begin (begin + frames_per_beat) = Done (middle, output') /\
       output' = take (Z.to_nat begin) output
                   ++ replicate (Z.to_nat frames_per_beat) Float.zero
                   ++ drop (Z.to_nat (begin + frames_per_beat)) output /\
       state middle = STATE_ATTACK /\
       elapsed_len middle = 0 /\
       play self output begin end_
       = play middle output' (begin + frames_per_beat) end_).
Proof.
  intros Hs Hf Hp. pose proof (to_uint32_range _ _ Hf) as Hrange.
  unfold is_uint32 in Hrange. split.
  - intros i Hi. exists (next_state frames_per_beat self). eexists.
    split; [now apply play_one_frame|].
    destruct (next_state_elapsed frames_per_beat self) as (He & Hst & _).
    split.
    + intros E. apply Z.eqb_eq in E. rewrite E in He, Hst. now split.
    + intros E. apply Z.eqb_neq in E. now rewrite E in He.
  - intros begin end_ Hst He Hpos Hb Hend.
    set (k := Z.to_nat (frames_per_beat - 1)).
    destruct (off_run frames_per_beat k self Hst) as (Hk1 & Hk2 & Hk3);
      try lia.
    set (before := Nat.iter k (next_state frames_per_beat) self) in *.
    destruct (next_state_elapsed frames_per_beat before) as (He' & Hst' & _).
    assert (Ewrap : wrap32 (elapsed_len before + 1) = frames_per_beat).
    { rewrite Hk2, He.
      replace (0 + Z.of_nat k + 1) with frames_per_beat by lia.
      apply wrap32_small. unfold is_uint32. lia. }
    rewrite Ewrap, Z.eqb_refl in He', Hst'.
    assert (Eplay : play self output begin (begin + frames_per_beat)
                    = Done (next_state frames_per_beat before,
                            take (Z.to_nat begin) output
                              ++ replicate (Z.to_nat frames_per_beat) Float.zero
                              ++ drop (Z.to_nat (begin + frames_per_beat)) output)).
    { rewrite (play_rolling _ _ _ _ _ Hs Hf).
      replace (Z.to_nat (begin + frames_per_beat - begin)) with (S k) by lia.
      rewrite play_loop_eq by (auto; lia).
      cbn [Nat.iter]. fold before. do 2 f_equal.
      replace (S k) with (k + 1)%nat by lia.
      replace (Z.to_nat frames_per_beat) with (k + 1)%nat by lia.
      replace (Z.to_nat (begin + frames_per_beat))
        with (Z.to_nat begin + (k + 1))%nat by lia.
      f_equal. f_equal. clear -Hk3 Hk1.
      assert (Happ : forall (n m : nat) (s : Metro),
                rendered frames_per_beat (n + m) s
                = rendered frames_per_beat n s
                    ++ rendered frames_per_beat m
                         (Nat.iter n (next_state frames_per_beat) s)).
      { induction n as [|n IH]; intros m s; [reflexivity|].
        cbn [Nat.add rendered app]. rewrite IH, Nat.iter_succ_r. reflexivity. }
      rewrite Happ, Hk3, replicate_add. f_equal. fold before.
      cbn [rendered replicate]. unfold frame_sample. now rewrite Hk1. }
    exists (next_state frames_per_beat before). eexists.
    split; [exact Eplay|]. split; [reflexivity|].
    split; [assumption|]. split; [assumption|].
    rewrite (play_split self output begin (begin + frames_per_beat) end_ Hs)
      by lia.
    rewrite Eplay. reflexivity.
Qed.

(** A beat of three frames inside a block of eight: frames 1 to 3 are
    silent, and the attack starts at frame 4. *)
Lemma play_beat_boundary_witness :
  exists (middle : Metro) (output' : list float),
    play rolling_3 (replicate 8 one) 1 4 = Done (middle, output') /\
    output' = [one; Float.zero; Float.zero; Float.zero; one; one; one; one] /\
    state middle = STATE_ATTACK /\
    elapsed_len middle = 0 /\
    play rolling_3 (replicate 8 one) 1 8 = play middle output' 4 8.
Proof.
  assert (Hp : playable rolling_3)
    by (unfold playable, UINT32_MAX; simpl; lia).
  apply (proj2 (play_beat_boundary rolling_3 (replicate 8 one) 3
                  eq_refl eq_refl Hp) 1 8).
  - reflexivity.
  - reflexivity.
  - lia.
  - lia.
  - simpl. lia.
Defined.

(** ** Past the beat *)

Lemma envelope_state_not_attack (self : Metro) :
  state self <> STATE_ATTACK -> envelope_state self <> STATE_ATTACK.
Proof.
  unfold envelope_state. destruct (state self); [congruence| |discriminate].
  intros _.
  destruct (wrap32 (attack_len self + decay_len self) <=? elapsed_len self);
    discriminate.
Qed.

(** [k] frames from an [elapsed_len] above the frames per beat, short of
    the 32-bit wrap. *)
Lemma overrun (frames_per_beat : uint32_t) (k : nat) :
  forall self : Metro,
  0 <= frames_per_beat < elapsed_len self ->
  elapsed_len self + Z.of_nat k <= UINT32_MAX ->
  elapsed_len (Nat.iter k (next_state frames_per_beat) self)
    = elapsed_len self + Z.of_nat k /\
  (state self <> STATE_ATTACK ->
   state (Nat.iter k (next_state frames_per_beat) self) <> STATE_ATTACK).
Proof.
  induction k as [|k IH]; intros self Hf Hk.
  - simpl. split; [lia | trivial].
  - rewrite Nat.iter_succ_r.
    destruct (next_state_elapsed frames_per_beat self) as (He & Hst & _).
    rewrite wrap32_small in He, Hst by (unfold is_uint32; lia).
    destruct (elapsed_len self + 1 =? frames_per_beat) eqn:E; [lia|].
    destruct (IH (next_state frames_per_beat self)) as [H1 H2];
      try (rewrite He; lia).
    split; [rewrite H1, He; lia|].
    intros Hn. apply H2. rewrite Hst. now apply envelope_state_not_attack.
Qed.

(** C10. With the transport rolling and [elapsed_len] above the frames per
    beat, the beat check never succeeds: after any number [k] of frames that
    keeps [elapsed_len + k] within 32 bits, [elapsed_len] has grown by exactly
    [k], it is still above the frames per beat, and no attack has started; the
    frame that takes [elapsed_len + k] to 2^32 wraps [elapsed_len] to 0. *)
Theorem play_past_beat (self : Metro) (output : list float)
    (frames_per_beat begin end_ k : uint32_t) :
  Float.eqb (speed self) Float.zero = false ->
  play_frames_per_beat self = Done frames_per_beat ->
  playable self ->
  frames_per_beat < elapsed_len self <= UINT32_MAX ->
  0 <= begin -> 0 <= k ->
  begin + k <= end_ <= Z.of_nat (length output) ->
  elapsed_len self + k <= UINT32_MAX + 1 ->
  exists (self' : Metro) (output' : list float),
    play self output begin (begin + k) = Done (self', output') /\
    play self output begin end_ = play self' output' (begin + k) end_ /\
    (elapsed_len self + k <= UINT32_MAX ->
     elapsed_len self' = elapsed_len self + k /\
     frames_per_beat < elapsed_len self' /\
     (state self <> STATE_ATTACK -> state self' <> STATE_ATTACK)) /\
    (elapsed_len self + k = UINT32_MAX + 1 -> elapsed_len self' = 0).
Proof.
  intros Hs Hf Hp [Hover Hmax] Hb Hk Hend Hwrap.
  pose proof (to_uint32_range _ _ Hf) as Hrange. unfold is_uint32 in Hrange.
  assert (Eplay : play self output begin (begin + k)
                  = play_loop frames_per_beat (Z.to_nat k) begin (self, output)).
  { rewrite (play_rolling _ _ _ _ _ Hs Hf). f_equal. lia. }
  rewrite play_loop_eq in Eplay by (auto; lia).
  eexists. eexists. split; [exact Eplay|]. split.
  - rewrite (play_split self output begin (begin + k) end_ Hs) by lia.
    rewrite Eplay. reflexivity.
  - split.
    + intros Hfit.
      destruct (overrun frames_per_beat (Z.to_nat k) self) as [H1 H2]; try lia.
      rewrite H1. repeat split; [lia | lia | exact H2].
    + intros Hlast.
      replace (Z.to_nat k) with (S (Z.to_nat (k - 1)))
        by (unfold UINT32_MAX in *; lia).
      rewrite Nat.iter_succ.
      destruct (overrun frames_per_beat (Z.to_nat (k - 1)) self) as [H1 _];
        try (unfold UINT32_MAX in *; lia).
      destruct (next_state_elapsed frames_per_beat
                  (Nat.iter (Z.to_nat (k - 1)) (next_state frames_per_beat) self))
        as (He & _).
      rewrite He, H1.
      replace (elapsed_len self + Z.of_nat (Z.to_nat (k - 1)) + 1)
        with 4294967296 by (unfold UINT32_MAX in *; lia).
      change (wrap32 4294967296) with 0.
      now destruct (0 =? frames_per_beat).
Qed.

(** The state of the claim is reachable: at 48000 Hz and 120 beats per
    minute a resynchronisation at position 1.5 sets [elapsed_len] to 12000,
    and a later tempo of 480 beats per minute brings the frames per beat down
    to 6000. *)
Lemma past_beat_reachable :
  exists self1 self2 : Metro,
    update_position rolling_48k (position (Some three_halves) None None)
      = Done self1 /\
    update_position self1 (position None (Some (Float.of_Z 480)) None)
      = Done self2 /\
    elapsed_len self2 = 12000 /\
    play_frames_per_beat self2 = Done 6000.
Proof.
  do 2 eexists. split; [vm_compute; reflexivity|].
  split; [vm_compute; reflexivity|]. split; vm_compute; reflexivity.
Qed.

(** Two frames on the instance with a beat of three frames, from
    [elapsed_len = 10]: no reset, no attack. *)
Lemma play_past_beat_witness :
  exists (self' : Metro) (output' : list float),
    play (set_elapsed_len 10 rolling_3) (replicate 8 one) 1 3
      = Done (self', output') /\
    play (set_elapsed_len 10 rolling_3) (replicate 8 one) 1 8
      = play self' output' 3 8 /\
    (10 + 2 <= UINT32_MAX ->
     elapsed_len self' = 10 + 2 /\
     3 < elapsed_len self' /\
     (STATE_OFF <> STATE_ATTACK -> state self' <> STATE_ATTACK)) /\
    (10 + 2 = UINT32_MAX + 1 -> elapsed_len self' = 0).
Proof.
  assert (Hp : playable (set_elapsed_len 10 rolling_3))
    by (unfold playable, UINT32_MAX; simpl; lia).
  apply (play_past_beat (set_elapsed_len 10 rolling_3) (replicate 8 one)
           3 1 8 2 eq_refl eq_refl Hp).
  - unfold UINT32_MAX. simpl. lia.
  - lia.
  - lia.
  - simpl. lia.
  - unfold UINT32_MAX. simpl. lia.
Defined.

(** ** Well-formed instances *)

Lemma well_formed_activate (self : Metro) :
  well_formed self -> well_formed (activate self).
Proof.
  intros ((Hl & Hmax & Hwo) & (He & Ha & Hd & Hsum & _) & Hlt & _).
  unfold well_formed, playable, envelope_ok, is_uint32, UINT32_MAX in *.
  simpl. repeat split; try assumption; try lia; discriminate.
Qed.

Lemma well_formed_next (frames_per_beat : uint32_t) (self : Metro) :
  well_formed self -> well_formed (next_state frames_per_beat self).
Proof.
  intros (Hp & (He & Ha & Hd & Hsum & Hdecay) & Hlt & Hattack).
  destruct (next_state_config frames_per_beat self)
    as ((_ & _ & _ & _ & Hat & Hde) & _).
  destruct (next_state_elapsed frames_per_beat self) as (He' & Hst' & _).
  split; [now apply playable_next|].
  unfold envelope_ok. rewrite <- Hat, <- Hde, He', Hst'.
  unfold is_uint32 in *.
  destruct (wrap32 (elapsed_len self + 1) =? frames_per_beat).
  { repeat split; try assumption; try lia; discriminate. }
  pose proof (wrap32_range (elapsed_len self + 1)) as Hw. unfold is_uint32 in Hw.
  assert (Hstep : envelope_state self <> STATE_OFF ->
                  wrap32 (elapsed_len self + 1) = elapsed_len self + 1 /\
                  (envelope_state self = STATE_DECAY ->
                   attack_len self <= elapsed_len self) /\
                  (envelope_state self = STATE_ATTACK ->
                   elapsed_len self < attack_len self)).
  { unfold envelope_state. destruct (state self) eqn:Est.
    - specialize (Hattack eq_refl).
      destruct (attack_len self <=? elapsed_len self) eqn:E; intros _;
        (split; [apply wrap32_small; unfold is_uint32; lia|]);
        split; intros; try discriminate; lia.
    - specialize (Hdecay eq_refl).
      rewrite (wrap32_small (attack_len self + decay_len self))
        by (unfold is_uint32; lia).
      destruct (attack_len self + decay_len self <=? elapsed_len self) eqn:E;
        [congruence|]. intros _.
      split; [apply wrap32_small; unfold is_uint32; lia|].
      split; intros; try discriminate; lia.
    - congruence. }
  repeat split; try assumption; try lia.
  - intros Hs. destruct Hstep as (-> & H & _); [congruence|].
    specialize (H Hs). lia.
  - intros Hs. destruct Hstep as (-> & _ & H); [congruence|].
    specialize (H Hs). lia.
Qed.

Lemma envelope_in_range (i : uint32_t) (st st' : rendering) :
  envelope i st = Done st' -> 0 <= i < Z.of_nat (length (snd st)).
Proof.
  destruct st as [self output]. unfold envelope. simpl.
  destruct (state self); intros H.
  - apply bind_Done in H as (w & _ & H).
    apply bind_Done in H as (o & Ho & _). now apply store_Done in Ho as [? _].
  - apply bind_Done in H as (o & Ho & _). now apply store_Done in Ho as [? _].
  - apply bind_Done in H as (o & Ho & _). now apply store_Done in Ho as [? _].
Qed.

Lemma play_loop_well_formed (frames_per_beat : uint32_t) (n : nat) :
  forall (i : uint32_t) (self self' : Metro) (output output' : list float),
  well_formed self ->
  play_loop frames_per_beat n i (self, output) = Done (self', output') ->
  well_formed self'.
Proof.
  induction n as [|n IH]; intros i self self' output output' Hwf H.
  - now injection H as <- <-.
  - cbn [play_loop] in H. apply bind_Done in H as ([s1 o1] & Hf & H).
    assert (Hi : 0 <= i < Z.of_nat (length output)).
    { unfold play_frame in Hf. apply bind_Done in Hf as (st & He & _).
      now apply envelope_in_range in He. }
    rewrite (play_frame_eq _ _ _ _ (proj1 Hwf) Hi) in Hf.
    injection Hf as <- <-. apply IH in H; [exact H|].
    now apply well_formed_next.
Qed.

Lemma well_formed_play (self self' : Metro) (output output' : list float)
    (begin end_ : uint32_t) :
  well_formed self ->
  play self output begin end_ = Done (self', output') ->
  well_formed self'.
Proof.
  intros Hwf H. destruct (Float.eqb (speed self) Float.zero) eqn:Hs.
  - now apply (play_stopped _ _ _ _ _ _ Hs) in H as [-> _].
  - unfold play in H. apply bind_Done in H as (f & _ & H). rewrite Hs in H.
    eapply play_loop_well_formed; eassumption.
Qed.

Lemma well_formed_update_position (self self' : Metro) (obj : LV2_Atom_Object) :
  well_formed self ->
  update_position self obj = Done self' ->
  well_formed self'.
Proof.
  intros Hwf. rewrite update_position_unfold.
  destruct (with_transport_fields self obj)
    as ((_ & _ & Hw & Hwl & Hat & Hde) & Hel & Hwo & Hst & _).
  assert (Hwf1 : well_formed (with_transport self obj)).
  { unfold well_formed, playable, envelope_ok in *.
    now rewrite <- Hw, <- Hwl, <- Hat, <- Hde, Hel, Hwo, Hst. }
  destruct (float_body (uris self) (obj_beat obj)) as [bar_beats|];
    [|now intros [= <-]].
  intros H. clear Hwf Hw Hwl Hat Hde Hel Hwo Hst.
  destruct Hwf1 as ((Hl & Hmax & Hoff) & (_ & Ha & Hd & Hsum & _) & Hlt & _).
  pose proof H as H'.
  apply resync_Done in H' as ((_ & _ & Hw & Hwl & Hat & Hde) & _ & Hwo & He & Hst).
  apply to_uint32_range in He. unfold is_uint32 in *.
  unfold well_formed, playable, envelope_ok, is_uint32.
  rewrite <- Hw, <- Hwl, <- Hat, <- Hde, Hwo, Hst.
  unfold sync_state. rewrite <- Hat, <- Hde.
  rewrite (wrap32_small (attack_len (with_transport self obj)
                         + decay_len (with_transport self obj)))
    by (unfold is_uint32; lia).
  destruct (elapsed_len self' <? attack_len (with_transport self obj)) eqn:E1;
    [|destruct (elapsed_len self' <? attack_len (with_transport self obj)
                                     + decay_len (with_transport self obj)) eqn:E2];
    repeat split; try assumption; try lia; try discriminate.
Qed.

Lemma run_events_well_formed (control : list LV2_Atom_Event) :
  forall (last_t last_t' : uint32_t) (self self' : Metro)
         (output output' : list float),
  well_formed self ->
  run_events control last_t (self, output) = Done (last_t', (self', output')) ->
  well_formed self'.
Proof.
  induction control as [|ev control IH];
    intros last_t last_t' self self' output output' Hwf H.
  - now injection H as _ <- _.
  - cbn [run_events] in H. apply bind_Done in H as ([t [s o]] & Hev & H).
    apply IH in H; [exact H|]. clear IH H.
    unfold run_event in Hev. apply bind_Done in Hev as ([s1 o1] & Hplay & Hev).
    apply (well_formed_play _ _ _ _ _ _ Hwf) in Hplay.
    apply bind_Done in Hev as (s2 & Hup & Hev). injection Hev as _ <- _.
    destruct ((body_type ev =? atom_Object (uris s1))
              || (body_type ev =? atom_Blank (uris s1)));
      [destruct (obj_otype (body ev) =? time_Position (uris s1))|];
      try (now injection Hup as <-).
    eapply well_formed_update_position; eassumption.
Qed.

(** Every block leaves a well-formed instance well-formed. *)
Lemma well_formed_run (self self' : Metro) (control : list LV2_Atom_Event)
    (output output' : list float) (sample_count : uint32_t) :
  well_formed self ->
  run self control output sample_count = Done (self', output') ->
  well_formed self'.
Proof.
  intros Hwf H. unfold run in H.
  apply bind_Done in H as ([t [s o]] & Hev & H).
  apply (run_events_well_formed _ _ _ _ _ _ _ Hwf) in Hev.
  eapply well_formed_play; eassumption.
Qed.

(** The instance [instantiate] returns is well-formed as soon as its wave
    is not empty and its envelope is shorter than 2^32 frames. *)
Lemma well_formed_instantiate (sin : double -> double) (host : Host)
    (rate : double) (self : Metro) :
  instantiate sin host rate = Done (Some self) ->
  0 < wave_len self ->
  attack_len self + decay_len self < UINT32_MAX ->
  well_formed self.
Proof.
  unfold instantiate. destruct (negb (calloc_ok host)); [discriminate|].
  destruct (missing host); [discriminate|].
  destruct (to_uint32 (Double.mul attack_s rate)) as [a|] eqn:Ha; [|discriminate].
  destruct (to_uint32 (Double.mul decay_s rate)) as [d|] eqn:Hd; [|discriminate].
  destruct (to_uint32 (Double.div rate freq)) as [w|] eqn:Hw; [|discriminate].
  cbn [mbind outcome_bind].
  destruct (negb (malloc_ok host) && (0 <? w)); [discriminate|].
  intros [= <-]. simpl. intros Hpos Hsum.
  apply to_uint32_range in Ha, Hd, Hw.
  unfold well_formed, playable, envelope_ok, is_uint32 in *. simpl.
  rewrite length_fmap, length_seq.
  repeat split; try assumption; try lia; discriminate.
Qed.

(** At 48000 Hz, whatever [sin] computes: an attack of 240 frames, a decay
    of 3600, a wave of 54 samples, and a well-formed instance. *)
Lemma instantiate_48k_well_formed (sin : double -> double) :
  exists self,
    instantiate sin example_host (Double.of_Z 48000) = Done (Some self) /\
    attack_len self = 240 /\ decay_len self = 3600 /\ wave_len self = 54 /\
    well_formed self.
Proof.
  destruct (instantiate_succeeds sin example_host (Double.of_Z 48000) 240 3600 54)
    as (self & H & Ha & Hd & Hw); try reflexivity.
  exists self. repeat (split; [assumption|]).
  apply (well_formed_instantiate _ _ _ _ H); rewrite ?Ha, ?Hd, ?Hw;
    unfold UINT32_MAX; lia.
Qed.

(** * Further properties of the renderer and the synchroniser *)

(** ** What a call of [play] writes *)

Lemma rolling_lengths (frames_per_beat : uint32_t) (n : nat) (self : Metro)
    (output : list float) (b : nat) :
  (b + n <= length output)%nat ->
  length (take b output ++ rendered frames_per_beat n self ++ drop (b + n) output)
  = length output.
Proof.
  intros H. rewrite !length_app, length_take, length_rendered, length_drop. lia.
Qed.

Lemma rolling_lookup_inside (frames_per_beat : uint32_t) (n : nat)
    (self : Metro) (output : list float) (b j : nat) :
  (b + n <= length output)%nat ->
  (b <= j < b + n)%nat ->
  (take b output ++ rendered frames_per_beat n self ++ drop (b + n) output) !! j
  = rendered frames_per_beat n self !! (j - b)%nat.
Proof.
  intros Hlen Hj.
  rewrite lookup_app_r by (rewrite length_take; lia).
  rewrite length_take. replace (b `min` length output)%nat with b by lia.
  apply lookup_app_l. rewrite length_rendered. lia.
Qed.

(** X1. With the transport rolling, a call of [play] on a range inside the
    buffer replaces exactly the samples of the range: the buffer keeps its
    length, every sample outside [begin, end_) keeps its value, and the
    samples inside, like the instance returned, do not depend on what the
    buffer held. *)
Theorem play_writes_exactly_its_range (self : Metro) (output other : list float)
    (begin end_ frames_per_beat : uint32_t) :
  Float.eqb (speed self) Float.zero = false ->
  play_frames_per_beat self = Done frames_per_beat ->
  playable self ->
  0 <= begin <= end_ -> end_ <= Z.of_nat (length output) ->
  length other = length output ->
  exists (self' : Metro) (output' other' : list float),
    play self output begin end_ = Done (self', output') /\
    play self other begin end_ = Done (self', other') /\
    length output' = length output /\
    (forall j : nat,
       (j < Z.to_nat begin \/ Z.to_nat end_ <= j)%nat ->
       output' !! j = output !! j) /\
    (forall j : nat,
       (Z.to_nat begin <= j < Z.to_nat end_)%nat ->
       is_Some (output' !! j) /\ output' !! j = other' !! j).
Proof.
  intros Hs Hf Hp Hb He Hlen.
  rewrite (play_rolling_range self output begin end_ frames_per_beat)
    by assumption.
  rewrite (play_rolling_range self other begin end_ frames_per_beat)
    by (try assumption; lia).
  set (n := Z.to_nat (end_ - begin)). set (b := Z.to_nat begin).
  assert (Hn : Z.to_nat end_ = (b + n)%nat) by lia. rewrite Hn.
  do 3 eexists. split; [reflexivity|]. split; [reflexivity|].
  split; [apply rolling_lengths; lia|]. split.
  - intros j [Hj|Hj].
    + rewrite lookup_app_l by (rewrite length_take; lia).
      apply lookup_take_lt. exact Hj.
    + rewrite lookup_app_r by (rewrite length_take; lia).
      rewrite lookup_app_r by (rewrite length_take, length_rendered; lia).
      rewrite lookup_drop, length_take, length_rendered. f_equal. lia.
  - intros j Hj.
    rewrite !rolling_lookup_inside by lia.
    split; [|reflexivity]. apply lookup_lt_is_Some_2.
    rewrite length_rendered. lia.
Qed.

(** Frames 2 to 5 of a block of eight, over two different buffers. *)
Lemma play_writes_exactly_its_range_witness :
  exists (self' : Metro) (output' other' : list float),
    play rolling_3 (replicate 8 one) 2 6 = Done (self', output') /\
    play rolling_3 (replicate 8 half) 2 6 = Done (self', other') /\
    length output' = 8%nat /\
    (forall j : nat,
       (j < 2 \/ 6 <= j)%nat -> output' !! j = replicate 8 one !! j) /\
    (forall j : nat,
       (2 <= j < 6)%nat -> is_Some (output' !! j) /\ output' !! j = other' !! j).
Proof.
  assert (Hp : playable rolling_3)
    by (unfold playable, UINT32_MAX; simpl; lia).
  apply (play_writes_exactly_its_range rolling_3 (replicate 8 one)
           (replicate 8 half) 2 6 3 eq_refl eq_refl Hp).
  - lia.
  - simpl. lia.
  - reflexivity.
Defined.

(** X2. With the transport rolling, rendering a range in two calls, split
    at any frame of the range, is rendering it in one call. *)
Theorem play_composes (self : Metro) (output : list float)
    (begin middle end_ : uint32_t) :
  Float.eqb (speed self) Float.zero = false ->
  begin <= middle <= end_ ->
  (play self output begin middle
     ≫= fun '(self', output') => play self' output' middle end_)
  = play self output begin end_.
Proof. intros Hs Hm. symmetry. now apply play_split. Qed.

(** A block of eight frames split at frame 3. *)
Lemma play_composes_witness :
  (play rolling_3 (replicate 8 one) 0 3
     ≫= fun '(self', output') => play self' output' 3 8)
  = play rolling_3 (replicate 8 one) 0 8.
Proof.
  apply (play_composes rolling_3 (replicate 8 one) 0 3 8).
  - reflexivity.
  - lia.
Defined.

(** ** Blocks *)

Lemma play_Done (self self' : Metro) (output output' : list float)
    (begin end_ : uint32_t) :
  play self output begin end_ = Done (self', output') ->
  same_config self self' /\ same_transport self self' /\
  length output' = length output.
Proof.
  intros H. unfold play in H. apply bind_Done in H as (f & _ & H).
  destruct (Float.eqb (speed self) Float.zero).
  - apply bind_Done in H as (o & Ho & H). injection H as <- <-.
    split; [apply same_config_refl|]. split; [split; reflexivity|].
    unfold memset_zero in Ho.
    destruct (wrap32 (end_ - begin) <=? Z.of_nat (length output)) eqn:E;
      [|discriminate].
    injection Ho as <-. pose proof (wrap32_range (end_ - begin)) as Hw.
    unfold is_uint32 in Hw.
    rewrite length_app, length_replicate, length_drop. lia.
  - now apply play_loop_Done in H.
Qed.

Lemma is_position_false (u : MetroURIs) (ev : LV2_Atom_Event) (self : Metro) :
  is_position u ev = false ->
  (if (body_type ev =? atom_Object u) || (body_type ev =? atom_Blank u)
   then if obj_otype (body ev) =? time_Position u
        then update_position self (body ev)
        else mret self
   else mret self) = Done self.
Proof.
  unfold is_position.
  destruct ((body_type ev =? atom_Object u) || (body_type ev =? atom_Blank u));
    destruct (obj_otype (body ev) =? time_Position u);
    simpl; intros H; try discriminate; reflexivity.
Qed.

Lemma run_events_ignored (n : uint32_t) (control : list LV2_Atom_Event) :
  forall (last : uint32_t) (self : Metro) (output : list float),
  Float.eqb (speed self) Float.zero = false ->
  0 <= last -> n <= UINT32_MAX ->
  in_order last n control ->
  Forall (fun ev => is_position (uris self) ev = false) control ->
  (run_events control last (self, output)
     ≫= fun '(last_t, (self', output')) => play self' output' last_t n)
  = play self output last n.
Proof.
  induction control as [|ev control IH];
    intros last self output Hs Hlast Hn Hord Hign.
  - reflexivity.
  - destruct Hord as [Ht Hord]. inversion Hign as [|? ? Hev Hrest]; subst.
    assert (Hw : wrap32 (time_frames ev) = time_frames ev)
      by (apply wrap32_small; unfold is_uint32; lia).
    rewrite (play_split self output last (time_frames ev) n Hs)
      by (split; [lia|]; destruct control; simpl in Hord; lia).
    cbn [run_events]. unfold run_event. rewrite Hw.
    destruct (play self output last (time_frames ev)) as [[s1 o1]|] eqn:Hp;
      [|reflexivity].
    cbn [mbind outcome_bind].
    apply play_Done in Hp as ((Hu & _) & (_ & Hsp) & _).
    rewrite <- Hu, (is_position_false _ _ s1 Hev).
    cbn [mbind outcome_bind mret outcome_ret].
    apply IH; try assumption; try lia.
    + now rewrite <- Hsp.
    + now rewrite <- Hu.
Qed.

(** X3. With the transport rolling, events that [run] does not hand to
    [update_position] (atoms that are no object, objects that are no
    [time:Position]) are transparent: whatever their number and their time
    stamps, in order within the block, the block is rendered as by one call
    of [play] on [0, sample_count). *)
Theorem run_ignores_other_events (self : Metro) (control : list LV2_Atom_Event)
    (output : list float) (sample_count : uint32_t) :
  Float.eqb (speed self) Float.zero = false ->
  sample_count <= UINT32_MAX ->
  in_order 0 sample_count control ->
  Forall (fun ev => is_position (uris self) ev = false) control ->
  run self control output sample_count = play self output 0 sample_count.
Proof.
  intros Hs Hn Hord Hign. unfold run.
  now apply (run_events_ignored sample_count control 0 self output).
Qed.

(** Two path atoms, at frames 2 and 5 of a block of eight. *)
Lemma run_ignores_other_events_witness :
  run rolling_3 [path_event_at 2; path_event_at 5] (replicate 8 one) 8
  = play rolling_3 (replicate 8 one) 0 8.
Proof.
  apply (run_ignores_other_events rolling_3 [path_event_at 2; path_event_at 5]).
  - reflexivity.
  - unfold UINT32_MAX. lia.
  - simpl. lia.
  - repeat constructor.
Defined.

(** X4. With the transport stopped and no event in the control sequence,
    [run] fills the block with silence, leaves the rest of the buffer as it
    was, and returns the instance unchanged. *)
Theorem run_stopped_block_is_silent (self : Metro) (output : list float)
    (sample_count frames_per_beat : uint32_t) :
  Float.eqb (speed self) Float.zero = true ->
  play_frames_per_beat self = Done frames_per_beat ->
  0 <= sample_count <= Z.of_nat (length output) ->
  sample_count <= UINT32_MAX ->
  run self [] output sample_count
  = Done (self, replicate (Z.to_nat sample_count) Float.zero
                  ++ drop (Z.to_nat sample_count) output).
Proof.
  intros Hs Hf Hn Hmax. unfold run. cbn [run_events mbind outcome_bind mret outcome_ret].
  unfold play. rewrite Hf. cbn [mbind outcome_bind]. rewrite Hs.
  rewrite Z.sub_0_r, wrap32_small by (unfold is_uint32; lia).
  unfold memset_zero.
  destruct (sample_count <=? Z.of_nat (length output)) eqn:E; [reflexivity | lia].
Qed.

(** A stopped block of three frames in a buffer of four samples. *)
Lemma run_stopped_block_is_silent_witness :
  run stopped_48k [] [one; one; one; one] 3
  = Done (stopped_48k, [Float.zero; Float.zero; Float.zero; one]).
Proof.
  apply (run_stopped_block_is_silent stopped_48k [one; one; one; one] 3 24000).
  - reflexivity.
  - reflexivity.
  - simpl. lia.
  - unfold UINT32_MAX. lia.
Defined.

Lemma run_events_Done (control : list LV2_Atom_Event) :
  forall (last_t last_t' : uint32_t) (self self' : Metro)
         (output output' : list float),
  run_events control last_t (self, output) = Done (last_t', (self', output')) ->
  same_config self self' /\ length output' = length output.
Proof.
  induction control as [|ev control IH];
    intros last_t last_t' self self' output output' H.
  - injection H as _ <- <-. split; [apply same_config_refl | reflexivity].
  - cbn [run_events] in H. apply bind_Done in H as ([t [s o]] & Hev & H).
    apply IH in H as [Hc Hl]. unfold run_event in Hev.
    apply bind_Done in Hev as ([s1 o1] & Hplay & Hev).
    apply play_Done in Hplay as (Hc1 & _ & Hl1).
    apply bind_Done in Hev as (s2 & Hup & Hev). injection Hev as _ <- <-.
    assert (Hc2 : same_config s1 s2).
    { destruct ((body_type ev =? atom_Object (uris s1))
                || (body_type ev =? atom_Blank (uris s1)));
        [destruct (obj_otype (body ev) =? time_Position (uris s1))|];
        try (injection Hup as <-; apply same_config_refl).
      now apply update_position_Done in Hup as [? _]. }
    split; [|congruence].
    eapply same_config_trans; [exact Hc1|].
    eapply same_config_trans; eassumption.
Qed.

(** X5. Whatever the events of the block, [run] never writes the fields
    [instantiate] set up (the mapped URIs, the sample rate, the wave table and
    its length, the attack and decay lengths), and the output buffer keeps its
    length. *)
Theorem run_keeps_configuration (self self' : Metro)
    (control : list LV2_Atom_Event) (output output' : list float)
    (sample_count : uint32_t) :
  run self control output sample_count = Done (self', output') ->
  uris self' = uris self /\ rate self' = rate self /\
  wave self' = wave self /\ wave_len self' = wave_len self /\
  attack_len self' = attack_len self /\ decay_len self' = decay_len self /\
  length output' = length output.
Proof.
  intros H. unfold run in H. apply bind_Done in H as ([t [s o]] & Hev & H).
  apply run_events_Done in Hev as [Hc Hl].
  apply play_Done in H as (Hc' & _ & Hl').
  destruct (same_config_trans _ _ _ Hc Hc') as (? & ? & ? & ? & ? & ?).
  repeat split; congruence.
Qed.

(** A block of eight frames with a tempo change at frame 2 and a
    resynchronisation at frame 5. *)
Lemma run_keeps_configuration_witness :
  exists (self' : Metro) (output' : list float),
    run rolling_3
        [event_at 2 (position None (Some (Float.of_Z 60)) None);
         event_at 5 (position (Some three_halves) None None)]
        (replicate 8 one) 8 = Done (self', output') /\
    uris self' = uris rolling_3 /\ rate self' = rate rolling_3 /\
    wave self' = wave rolling_3 /\ wave_len self' = wave_len rolling_3 /\
    attack_len self' = attack_len rolling_3 /\
    decay_len self' = decay_len rolling_3 /\
    length output' = length (replicate 8 one).
Proof.
  do 2 eexists. split; [vm_compute; reflexivity|].
  eapply (run_keeps_configuration rolling_3 _
            [event_at 2 (position None (Some (Float.of_Z 60)) None);
             event_at 5 (position (Some three_halves) None None)]
            (replicate 8 one) _ 8).
  vm_compute. reflexivity.
Defined.

(** X6. A block keeps a well-formed instance well-formed: after [run], the
    cursor is still inside the wave table, the counters are 32-bit values, an
    attack has not run past [attack_len] and a decay has not started before
    it. *)
Theorem run_keeps_well_formed (self self' : Metro)
    (control : list LV2_Atom_Event) (output output' : list float)
    (sample_count : uint32_t) :
  well_formed self ->
  run self control output sample_count = Done (self', output') ->
  well_formed self'.
Proof. apply well_formed_run. Qed.

Lemma well_formed_rolling_3 : well_formed rolling_3.
Proof.
  unfold well_formed, playable, envelope_ok, is_uint32, UINT32_MAX. simpl.
  repeat split; try lia; discriminate.
Qed.

(** The block of the previous example. *)
Lemma run_keeps_well_formed_witness :
  exists (self' : Metro) (output' : list float),
    run rolling_3
        [event_at 2 (position None (Some (Float.of_Z 60)) None);
         event_at 5 (position (Some three_halves) None None)]
        (replicate 8 one) 8 = Done (self', output') /\
    well_formed self'.
Proof.
  do 2 eexists. split; [vm_compute; reflexivity|].
  eapply (run_keeps_well_formed rolling_3 _
            [event_at 2 (position None (Some (Float.of_Z 60)) None);
             event_at 5 (position (Some three_halves) None None)]
            (replicate 8 one) _ 8).
  - exact well_formed_rolling_3.
  - vm_compute. reflexivity.
Defined.

(** ** Messages *)

Lemma float_body_other (u : MetroURIs) (p : option LV2_Atom) :
  (forall a, p = Some a -> atom_type a <> atom_Float u) ->
  float_body u p = None.
Proof.
  intros H. unfold float_body. destruct p as [a|]; [|reflexivity].
  destruct (atom_type a =? atom_Float u) eqn:E; [|reflexivity].
  apply Z.eqb_eq in E. now destruct (H a eq_refl).
Qed.

(** X7. A [time:Position] object in which none of the three properties is
    present with the type Float (each is absent, or an atom of another type)
    leaves the instance exactly as it was. *)
Theorem update_position_ignores_other_atoms (self : Metro)
    (obj : LV2_Atom_Object) :
  (forall a, obj_beat obj = Some a -> atom_type a <> atom_Float (uris self)) ->
  (forall a, obj_bpm obj = Some a -> atom_type a <> atom_Float (uris self)) ->
  (forall a, obj_speed obj = Some a -> atom_type a <> atom_Float (uris self)) ->
  update_position self obj = Done self.
Proof.
  intros Hbeat Hbpm Hspeed. rewrite update_position_unfold.
  rewrite (float_body_other _ _ Hbeat). unfold with_transport.
  rewrite (float_body_other _ _ Hbpm), (float_body_other _ _ Hspeed).
  reflexivity.
Qed.

(** A tempo and a position that are path atoms, and no speed. *)
Lemma update_position_ignores_other_atoms_witness :
  update_position rolling_48k
    {| obj_otype := time_Position example_uris;
       obj_beat := Some path_atom; obj_bpm := Some path_atom;
       obj_speed := None |}
  = Done rolling_48k.
Proof.
  apply update_position_ignores_other_atoms; simpl.
  - intros a [= <-]. discriminate.
  - intros a [= <-]. discriminate.
  - intros a. discriminate.
Defined.

(** X8. A message without a Float beat position never fails and never
    resynchronises: it stores the tempo and the speed it carries, and leaves
    [elapsed_len], the state and [wave_offset] as they were. *)
Theorem update_position_without_beat (self : Metro) (obj : LV2_Atom_Object) :
  (forall a, obj_beat obj = Some a -> atom_type a <> atom_Float (uris self)) ->
  exists self',
    update_position self obj = Done self' /\
    bpm self' = default (bpm self) (float_body (uris self) (obj_bpm obj)) /\
    speed self' = default (speed self) (float_body (uris self) (obj_speed obj)) /\
    elapsed_len self' = elapsed_len self /\
    state self' = state self /\
    wave_offset self' = wave_offset self.
Proof.
  intros Hbeat. rewrite update_position_unfold, (float_body_other _ _ Hbeat).
  destruct (with_transport_fields self obj) as (_ & He & Hw & Hst & Hb & Hs).
  eexists. split; [reflexivity|]. repeat split; assumption.
Qed.

(** A tempo of 60 and a speed of 0, sent in the middle of a decay. *)
Lemma update_position_without_beat_witness :
  exists self',
    update_position
      (set_state STATE_DECAY (set_elapsed_len 500 rolling_48k))
      (position None (Some (Float.of_Z 60)) (Some Float.zero)) = Done self' /\
    bpm self' = Float.of_Z 60 /\
    speed self' = Float.zero /\
    elapsed_len self' = 500 /\
    state self' = STATE_DECAY /\
    wave_offset self' = 0.
Proof.
  apply (update_position_without_beat
           (set_state STATE_DECAY (set_elapsed_len 500 rolling_48k))
           (position None (Some (Float.of_Z 60)) (Some Float.zero))).
  simpl. intros a. discriminate.
Defined.

(** ** Construction *)

(** X9. The instance [instantiate] returns is already in the state
    [activate] sets (cursor at 0, envelope off), with the transport stopped at
    120 beats per minute, the URIs the host mapped and the rate it gave. *)
Theorem instantiate_is_activated (sin : double -> double) (host : Host)
    (r : double) (self : Metro) :
  instantiate sin host r = Done (Some self) ->
  activate self = self /\
  bpm self = Float.of_Z 120 /\
  speed self = Float.zero /\
  uris self = mapped host /\
  rate self = r.
Proof.
  unfold instantiate. destruct (negb (calloc_ok host)); [discriminate|].
  destruct (missing host); [discriminate|].
  destruct (to_uint32 (Double.mul attack_s r)); [|discriminate].
  destruct (to_uint32 (Double.mul decay_s r)); [|discriminate].
  destruct (to_uint32 (Double.div r freq)) as [w|]; [|discriminate].
  cbn [mbind outcome_bind].
  destruct (negb (malloc_ok host) && (0 <? w)); [discriminate|].
  intros [= <-]. repeat split.
Qed.

(** At 44100 Hz. *)
Lemma instantiate_is_activated_witness :
  exists self,
    instantiate (fun x => x) example_host (Double.of_Z 44100) = Done (Some self) /\
    activate self = self /\
    bpm self = Float.of_Z 120 /\
    speed self = Float.zero /\
    uris self = example_uris /\
    rate self = Double.of_Z 44100.
Proof.
  eexists. split; [vm_compute; reflexivity|].
  eapply (instantiate_is_activated (fun x => x) example_host (Double.of_Z 44100)).
  vm_compute. reflexivity.
Defined.

(** X10. At each of the sample rates in common use, with memory and the
    host features at hand, [instantiate] succeeds whatever [sin] computes: the
    attack lasts [r / 200] frames (5 ms), the decay [3 r / 40] frames (75 ms),
    the wave has [r / 880] samples (integer quotients), and the instance is
    well-formed. *)
Theorem instantiate_common_rates (sin : double -> double) (host : Host) (r : Z) :
  r ∈ common_rates ->
  calloc_ok host = true -> missing host = None -> malloc_ok host = true ->
  exists self,
    instantiate sin host (Double.of_Z r) = Done (Some self) /\
    attack_len self = r / 200 /\
    decay_len self = 3 * r / 40 /\
    wave_len self = r / 880 /\
    well_formed self.
Proof.
  intros Hr Hc Hm Hw.
  assert (Hconv : to_uint32 (Double.mul attack_s (Double.of_Z r)) = Done (r / 200) /\
                  to_uint32 (Double.mul decay_s (Double.of_Z r)) = Done (3 * r / 40) /\
                  to_uint32 (Double.div (Double.of_Z r) freq) = Done (r / 880) /\
                  0 < r / 880 /\ r / 200 + 3 * r / 40 < UINT32_MAX).
  { unfold common_rates in Hr.
    repeat (apply elem_of_cons in Hr as [-> | Hr];
            [vm_compute; repeat split; congruence|]).
    now apply elem_of_nil in Hr. }
  destruct Hconv as (Ha & Hd & Hl & Hpos & Hsum).
  destruct (instantiate_succeeds sin host (Double.of_Z r) _ _ _ Hc Hm Hw Ha Hd Hl)
    as (self & H & Ha' & Hd' & Hl').
  exists self. repeat (split; [assumption|]).
  apply (well_formed_instantiate _ _ _ _ H); rewrite ?Ha', ?Hd', ?Hl'; assumption.
Qed.

(** At 11025 Hz: 55 frames of attack, 826 of decay, a wave of 12. *)
Lemma instantiate_common_rates_witness :
  exists self,
    instantiate (fun x => x) example_host (Double.of_Z 11025) = Done (Some self) /\
    attack_len self = 11025 / 200 /\
    decay_len self = 3 * 11025 / 40 /\
    wave_len self = 11025 / 880 /\
    well_formed self.
Proof.
  apply (instantiate_common_rates (fun x => x) example_host 11025).
  - unfold common_rates. apply list_elem_of_further. apply list_elem_of_here.
  - reflexivity.
  - reflexivity.
  - reflexivity.
Defined.

(** ** The cursor during rendering *)

Lemma iter_wave_offset (frames_per_beat : uint32_t) (k : nat) (self : Metro) :
  playable self ->
  wave_offset (Nat.iter k (next_state frames_per_beat) self)
  = (wave_offset self + Z.of_nat k) mod wave_len self.
Proof.
  intros (_ & _ & Hwo). induction k as [|k IH].
  - simpl. rewrite Z.add_0_r. symmetry. now apply Z.mod_small.
  - rewrite Nat.iter_succ.
    destruct (next_state_elapsed frames_per_beat
                (Nat.iter k (next_state frames_per_beat) self)) as (_ & _ & ->).
    destruct (iter_next_config frames_per_beat k self)
      as ((_ & _ & _ & <- & _) & _).
    rewrite IH, Z.add_mod_idemp_l by lia. f_equal. lia.
Qed.

(** X11. With the transport rolling, [k] frames move the cursor of the wave
    [k] samples forward around the table, whatever the envelope does:
    [wave_offset] becomes [(wave_offset + k) mod wave_len]. *)
Theorem play_advances_wave (self : Metro) (output : list float)
    (begin k frames_per_beat : uint32_t) :
  Float.eqb (speed self) Float.zero = false ->
  play_frames_per_beat self = Done frames_per_beat ->
  playable self ->
  0 <= begin -> 0 <= k -> begin + k <= Z.of_nat (length output) ->
  exists (self' : Metro) (output' : list float),
    play self output begin (begin + k) = Done (self', output') /\
    wave_offset self' = (wave_offset self + k) mod wave_len self.
Proof.
  intros Hs Hf Hp Hb Hk Hend.
  rewrite (play_rolling_range self output begin (begin + k) frames_per_beat)
    by (try assumption; lia).
  do 2 eexists. split; [reflexivity|].
  rewrite iter_wave_offset by assumption. f_equal. lia.
Qed.

(** Five frames over a wave of two samples. *)
Lemma play_advances_wave_witness :
  exists (self' : Metro) (output' : list float),
    play rolling_3 (replicate 8 one) 1 (1 + 5) = Done (self', output') /\
    wave_offset self' = (0 + 5) mod 2.
Proof.
  assert (Hp : playable rolling_3)
    by (unfold playable, UINT32_MAX; simpl; lia).
  apply (play_advances_wave rolling_3 (replicate 8 one) 1 5 3 eq_refl eq_refl Hp).
  - lia.
  - lia.
  - simpl. lia.
Defined.

Lemma play_loop_inv (P : Metro -> Prop) (frames_per_beat : uint32_t) :
  (forall s, playable s -> P s -> P (next_state frames_per_beat s)) ->
  forall (n : nat) (i : uint32_t) (self self' : Metro)
         (output output' : list float),
  playable self -> P self ->
  play_loop frames_per_beat n i (self, output) = Done (self', output') ->
  P self'.
Proof.
  intros Hstep. induction n as [|n IH]; intros i self self' output output' Hp HP H.
  - now injection H as <- <-.
  - cbn [play_loop] in H. apply bind_Done in H as ([s1 o1] & Hf & H).
    assert (Hi : 0 <= i < Z.of_nat (length output)).
    { unfold play_frame in Hf. apply bind_Done in Hf as (st & He & _).
      now apply envelope_in_range in He. }
    rewrite (play_frame_eq _ _ _ _ Hp Hi) in Hf. injection Hf as <- <-.
    apply IH in H; [exact H | now apply playable_next | now apply Hstep].
Qed.

(** X12. A call of [play] keeps [elapsed_len] below the frames per beat:
    when it is in [0, frames_per_beat) before the call, it is after it,
    however many beats the call has crossed. *)
Theorem play_keeps_elapsed_below_beat (self self' : Metro)
    (output output' : list float) (begin end_ frames_per_beat : uint32_t) :
  play_frames_per_beat self = Done frames_per_beat ->
  playable self ->
  0 <= elapsed_len self < frames_per_beat ->
  play self output begin end_ = Done (self', output') ->
  0 <= elapsed_len self' < frames_per_beat.
Proof.
  intros Hf Hp He H. pose proof (to_uint32_range _ _ Hf) as Hr.
  unfold is_uint32 in Hr.
  destruct (Float.eqb (speed self) Float.zero) eqn:Hs.
  - now apply (play_stopped _ _ _ _ _ _ Hs) in H as [-> _].
  - rewrite (play_rolling _ _ _ _ _ Hs Hf) in H.
    refine (play_loop_inv (fun s => 0 <= elapsed_len s < frames_per_beat)
              frames_per_beat _ _ _ _ _ _ _ Hp He H).
    intros s _ Hes.
    destruct (next_state_elapsed frames_per_beat s) as (-> & _).
    rewrite wrap32_small by (unfold is_uint32; lia).
    destruct (elapsed_len s + 1 =? frames_per_beat) eqn:E; lia.
Qed.

(** Seven frames, more than two beats of three frames. *)
Lemma play_keeps_elapsed_below_beat_witness :
  exists (self' : Metro) (output' : list float),
    play rolling_3 (replicate 8 one) 0 7 = Done (self', output') /\
    0 <= elapsed_len self' < 3.
Proof.
  do 2 eexists. split; [vm_compute; reflexivity|].
  assert (Hp : playable rolling_3)
    by (unfold playable, UINT32_MAX; simpl; lia).
  eapply (play_keeps_elapsed_below_beat rolling_3 _ (replicate 8 one) _ 0 7 3
            eq_refl Hp).
  - simpl. lia.
  - vm_compute. reflexivity.
Defined.

Lemma count_up (frames_per_beat : uint32_t) (k : nat) (self : Metro) :
  0 <= elapsed_len self ->
  elapsed_len self + Z.of_nat k < frames_per_beat ->
  frames_per_beat <= UINT32_MAX ->
  elapsed_len (Nat.iter k (next_state frames_per_beat) self)
  = elapsed_len self + Z.of_nat k.
Proof.
  intros He Hk Hmax. induction k as [|k IH]; [simpl; lia|].
  rewrite Nat.iter_succ.
  destruct (next_state_elapsed frames_per_beat
              (Nat.iter k (next_state frames_per_beat) self)) as (-> & _).
  rewrite IH by lia. rewrite wrap32_small by (unfold is_uint32; lia).
  destruct (elapsed_len self + Z.of_nat k + 1 =? frames_per_beat) eqn:E; lia.
Qed.

(** X13. With the transport rolling, the next attack starts when
    [elapsed_len] reaches the frames per beat, whatever the state of the
    envelope: from [elapsed_len] in [0, frames_per_beat), after exactly
    [frames_per_beat - elapsed_len] frames the state is [STATE_ATTACK] and
    [elapsed_len] is 0. *)
Theorem play_reaches_next_beat (self : Metro) (output : list float)
    (begin frames_per_beat : uint32_t) :
  Float.eqb (speed self) Float.zero = false ->
  play_frames_per_beat self = Done frames_per_beat ->
  playable self ->
  0 <= elapsed_len self < frames_per_beat ->
  0 <= begin ->
  begin + (frames_per_beat - elapsed_len self) <= Z.of_nat (length output) ->
  exists (self' : Metro) (output' : list float),
    play self output begin (begin + (frames_per_beat - elapsed_len self))
      = Done (self', output') /\
    state self' = STATE_ATTACK /\
    elapsed_len self' = 0.
Proof.
  intros Hs Hf Hp He Hb Hend. pose proof (to_uint32_range _ _ Hf) as Hr.
  unfold is_uint32 in Hr.
  rewrite (play_rolling_range self output begin _ frames_per_beat)
    by (try assumption; lia).
  do 2 eexists. split; [reflexivity|].
  replace (Z.to_nat (begin + (frames_per_beat - elapsed_len self) - begin))
    with (S (Z.to_nat (frames_per_beat - elapsed_len self - 1))) by lia.
  rewrite Nat.iter_succ.
  set (before := Nat.iter (Z.to_nat (frames_per_beat - elapsed_len self - 1))
                   (next_state frames_per_beat) self).
  destruct (next_state_elapsed frames_per_beat before) as (-> & -> & _).
  unfold before. rewrite count_up by lia.
  replace (elapsed_len self
           + Z.of_nat (Z.to_nat (frames_per_beat - elapsed_len self - 1)) + 1)
    with frames_per_beat by lia.
  rewrite wrap32_small by (unfold is_uint32; lia).
  rewrite Z.eqb_refl. split; reflexivity.
Qed.

(** From a decay one frame into a beat of three frames: two frames to the
    next attack. *)
Lemma play_reaches_next_beat_witness :
  exists (self' : Metro) (output' : list float),
    play (set_state STATE_DECAY (set_elapsed_len 1 rolling_3))
         (replicate 8 one) 4 (4 + (3 - 1)) = Done (self', output') /\
    state self' = STATE_ATTACK /\
    elapsed_len self' = 0.
Proof.
  assert (Hp : playable (set_state STATE_DECAY (set_elapsed_len 1 rolling_3)))
    by (unfold playable, UINT32_MAX; simpl; lia).
  apply (play_reaches_next_beat
           (set_state STATE_DECAY (set_elapsed_len 1 rolling_3))
           (replicate 8 one) 4 3 eq_refl eq_refl Hp).
  - simpl. lia.
  - lia.
  - simpl. lia.
Defined.

(** ** The shape of a tick *)

Lemma tick_run (frames_per_beat : uint32_t) (k : nat) (self : Metro) :
  state self = STATE_ATTACK ->
  elapsed_len self = 0 ->
  0 <= attack_len self -> 0 < decay_len self ->
  attack_len self + decay_len self <= UINT32_MAX ->
  Z.of_nat k < frames_per_beat <= UINT32_MAX ->
  state (Nat.iter k (next_state frames_per_beat) self)
    = tick_state self (Z.of_nat k) /\
  elapsed_len (Nat.iter k (next_state frames_per_beat) self) = Z.of_nat k.
Proof.
  intros Hst He Ha Hd Hsum. induction k as [|k IH]; intros Hk.
  - unfold tick_state. change (Z.of_nat 0) with 0.
    destruct (Z.leb_spec 0 (attack_len self)); [|lia].
    split; [exact Hst | exact He].
  - destruct IH as [IHs IHe]; [lia|]. rewrite Nat.iter_succ.
    set (before := Nat.iter k (next_state frames_per_beat) self) in *.
    destruct (next_state_elapsed frames_per_beat before) as (-> & -> & _).
    destruct (iter_next_config frames_per_beat k self)
      as ((_ & _ & _ & _ & Hat & Hde) & _).
    fold before in Hat, Hde.
    rewrite IHe, wrap32_small by (unfold is_uint32; lia).
    destruct (Z.of_nat k + 1 =? frames_per_beat) eqn:E; [lia|].
    split; [|lia].
    unfold envelope_state. rewrite IHs, IHe, <- Hat, <- Hde.
    rewrite wrap32_small by (unfold is_uint32; lia).
    unfold tick_state.
    repeat match goal with
           | |- context [?a <=? ?b] => destruct (Z.leb_spec a b)
           end; try lia; reflexivity.
Qed.

(** X14. The shape of a tick.  From the start of a beat ([STATE_ATTACK],
    [elapsed_len = 0]) and before the next one, [k] frames later
    [elapsed_len] is [k] and the envelope is in the attack up to
    [k = attack_len] included, in the decay for the next [decay_len] frames,
    and off afterwards: the attack is rendered for [attack_len + 1] frames. *)
Theorem play_tick_timeline (self : Metro) (output : list float)
    (begin k frames_per_beat : uint32_t) :
  Float.eqb (speed self) Float.zero = false ->
  play_frames_per_beat self = Done frames_per_beat ->
  playable self ->
  state self = STATE_ATTACK ->
  elapsed_len self = 0 ->
  0 <= attack_len self -> 0 < decay_len self ->
  attack_len self + decay_len self <= UINT32_MAX ->
  0 <= begin -> 0 <= k < frames_per_beat ->
  begin + k <= Z.of_nat (length output) ->
  exists (self' : Metro) (output' : list float),
    play self output begin (begin + k) = Done (self', output') /\
    elapsed_len self' = k /\
    state self' = (if k <=? attack_len self then STATE_ATTACK
                   else if k <=? attack_len self + decay_len self
                        then STATE_DECAY
                        else STATE_OFF).
Proof.
  intros Hs Hf Hp Hst He Ha Hd Hsum Hb Hk Hend.
  pose proof (to_uint32_range _ _ Hf) as Hr. unfold is_uint32 in Hr.
  rewrite (play_rolling_range self output begin _ frames_per_beat)
    by (try assumption; lia).
  do 2 eexists. split; [reflexivity|].
  replace (begin + k - begin) with k by lia.
  destruct (tick_run frames_per_beat (Z.to_nat k) self) as [H1 H2];
    try assumption; try lia.
  rewrite H1, H2. unfold tick_state. rewrite Z2Nat.id by lia. now split.
Qed.

(** A beat of twelve frames with one frame of attack and one of decay: two
    frames after the start the envelope is in the decay. *)
Lemma play_tick_timeline_witness :
  exists (self' : Metro) (output' : list float),
    play (set_state STATE_ATTACK (set_bpm (Float.of_Z 10) rolling_3))
         (replicate 8 one) 0 (0 + 2) = Done (self', output') /\
    elapsed_len self' = 2 /\
    state self' = STATE_DECAY.
Proof.
  assert (Hp : playable (set_state STATE_ATTACK (set_bpm (Float.of_Z 10) rolling_3)))
    by (unfold playable, UINT32_MAX; simpl; lia).
  apply (play_tick_timeline
           (set_state STATE_ATTACK (set_bpm (Float.of_Z 10) rolling_3))
           (replicate 8 one) 0 2 12 eq_refl eq_refl Hp eq_refl eq_refl).
  - simpl. lia.
  - simpl. lia.
  - unfold UINT32_MAX. simpl. lia.
  - lia.
  - lia.
  - simpl. lia.
Defined.

(** X15. Between two ticks the output is silence: with the transport
    rolling, from [STATE_OFF] and for as long as [elapsed_len] stays below the
    frames per beat, every frame written is [0.0f], the state stays
    [STATE_OFF] and [elapsed_len] counts the frames. *)
Theorem play_off_is_silent (self : Metro) (output : list float)
    (begin k frames_per_beat : uint32_t) :
  Float.eqb (speed self) Float.zero = false ->
  play_frames_per_beat self = Done frames_per_beat ->
  playable self ->
  state self = STATE_OFF ->
  0 <= elapsed_len self ->
  elapsed_len self + k < frames_per_beat ->
  0 <= begin -> 0 <= k -> begin + k <= Z.of_nat (length output) ->
  exists self' : Metro,
    play self output begin (begin + k)
    = Done (self', take (Z.to_nat begin) output
                     ++ replicate (Z.to_nat k) Float.zero
                     ++ drop (Z.to_nat (begin + k)) output) /\
    state self' = STATE_OFF /\
    elapsed_len self' = elapsed_len self + k.
Proof.
  intros Hs Hf Hp Hst He Hlt Hb Hk Hend.
  pose proof (to_uint32_range _ _ Hf) as Hr. unfold is_uint32 in Hr.
  rewrite (play_rolling_range self output begin _ frames_per_beat)
    by (try assumption; lia).
  replace (Z.to_nat (begin + k - begin)) with (Z.to_nat k) by lia.
  destruct (off_run frames_per_beat (Z.to_nat k) self Hst He) as (H1 & H2 & H3);
    try lia.
  eexists. rewrite H3. split; [reflexivity|]. split; [exact H1|].
  rewrite H2. lia.
Qed.

(** Ten frames of silence in the off part of a beat of twelve frames. *)
Lemma play_off_is_silent_witness :
  exists self' : Metro,
    play (set_elapsed_len 1 (set_bpm (Float.of_Z 10) rolling_3))
         (replicate 12 one) 1 (1 + 10)
    = Done (self', take 1 (replicate 12 one)
                     ++ replicate 10 Float.zero
                     ++ drop 11 (replicate 12 one)) /\
    state self' = STATE_OFF /\
    elapsed_len self' = 1 + 10.
Proof.
  assert (Hp : playable (set_elapsed_len 1 (set_bpm (Float.of_Z 10) rolling_3)))
    by (unfold playable, UINT32_MAX; simpl; lia).
  apply (play_off_is_silent
           (set_elapsed_len 1 (set_bpm (Float.of_Z 10) rolling_3))
           (replicate 12 one) 1 10 12 eq_refl eq_refl Hp eq_refl).
  - simpl. lia.
  - simpl. lia.
  - lia.
  - lia.
  - simpl. lia.
Defined.

(** ** The transport speed and the tempo *)

Lemma update_position_speed (self self' : Metro) (obj : LV2_Atom_Object) :
  update_position self obj = Done self' ->
  speed self' = default (speed self) (float_body (uris self) (obj_speed obj)) /\
  bpm self' = default (bpm self) (float_body (uris self) (obj_bpm obj)).
Proof.
  rewrite update_position_unfold.
  destruct (with_transport_fields self obj) as (_ & _ & _ & _ & Hb & Hs).
  destruct (float_body (uris self) (obj_beat obj)).
  - intros H. apply resync_Done in H as (_ & (Hb' & Hs') & _).
    split; congruence.
  - intros [= <-]. now split.
Qed.

(** X16. A message whose speed is zero freezes the instance: once
    [update_position] has applied it, a call of [play] on any range returns
    the instance exactly as the message left it. *)
Theorem stop_message_freezes (self stopped self' : Metro)
    (obj : LV2_Atom_Object) (v : float) (output output' : list float)
    (begin end_ : uint32_t) :
  float_body (uris self) (obj_speed obj) = Some v ->
  Float.eqb v Float.zero = true ->
  update_position self obj = Done stopped ->
  play stopped output begin end_ = Done (self', output') ->
  self' = stopped.
Proof.
  intros Hv Hz Hup Hplay. apply update_position_speed in Hup as [Hs _].
  rewrite Hv in Hs. simpl in Hs.
  eapply play_stopped; [|exact Hplay]. now rewrite Hs.
Qed.

(** A stop in the middle of a beat, then three frames. *)
Lemma stop_message_freezes_witness :
  exists (stopped self' : Metro) (output' : list float),
    update_position (set_elapsed_len 1 rolling_3)
      (position None None (Some Float.zero)) = Done stopped /\
    play stopped (replicate 8 one) 0 3 = Done (self', output') /\
    self' = stopped.
Proof.
  do 3 eexists. split; [vm_compute; reflexivity|].
  split; [vm_compute; reflexivity|].
  eapply (stop_message_freezes (set_elapsed_len 1 rolling_3) _ _
            (position None None (Some Float.zero)) Float.zero
            (replicate 8 one) _ 0 3).
  - reflexivity.
  - reflexivity.
  - vm_compute. reflexivity.
  - vm_compute. reflexivity.
Defined.

Lemma play_frame_set_speed (v : float) (frames_per_beat i : uint32_t)
    (self : Metro) (output : list float) :
  play_frame frames_per_beat i (set_speed v self, output)
  = play_frame frames_per_beat i (self, output)
      ≫= fun '(self', output') => mret (set_speed v self', output').
Proof.
  destruct self as [u r b sp el wo st wv wl al dl].
  unfold play_frame, envelope, advance_wave, urem, advance_beat, set_speed,
    attack_sample, decay_sample.
  cbn [state wave wave_offset wave_len attack_len decay_len elapsed_len].
  destruct st.
  - destruct (load wv wo) as [w|]; [|reflexivity]. cbn [mbind outcome_bind].
    destruct (store output i _) as [o|]; [|reflexivity].
    cbn [mbind outcome_bind mret outcome_ret].
    destruct (al <=? el); cbn [wave_len set_state wave_offset];
      destruct (wl =? 0); try reflexivity;
      cbn [mbind outcome_bind mret outcome_ret set_wave_offset set_elapsed_len
           elapsed_len set_state];
      destruct (wrap32 (el + 1) =? frames_per_beat); reflexivity.
  - destruct (store output i Float.zero) as [o0|]; [|reflexivity].
    cbn [mbind outcome_bind].
    destruct (load wv wo) as [w|]; [|reflexivity]. cbn [mbind outcome_bind].
    destruct (store o0 i _) as [o|]; [|reflexivity].
    cbn [mbind outcome_bind mret outcome_ret].
    destruct (wrap32 (al + dl) <=? el); cbn [wave_len set_state wave_offset];
      destruct (wl =? 0); try reflexivity;
      cbn [mbind outcome_bind mret outcome_ret set_wave_offset set_elapsed_len
           elapsed_len set_state];
      destruct (wrap32 (el + 1) =? frames_per_beat); reflexivity.
  - destruct (store output i Float.zero) as [o|]; [|reflexivity].
    cbn [mbind outcome_bind mret outcome_ret wave_len wave_offset].
    destruct (wl =? 0); try reflexivity.
    cbn [mbind outcome_bind mret outcome_ret set_wave_offset set_elapsed_len
         elapsed_len set_state].
    destruct (wrap32 (el + 1) =? frames_per_beat); reflexivity.
Qed.

Lemma play_loop_set_speed (v : float) (frames_per_beat : uint32_t) (n : nat) :
  forall (i : uint32_t) (self : Metro) (output : list float),
  play_loop frames_per_beat n i (set_speed v self, output)
  = play_loop frames_per_beat n i (self, output)
      ≫= fun '(self', output') => mret (set_speed v self', output').
Proof.
  induction n as [|n IH]; intros i self output; [reflexivity|].
  cbn [play_loop]. rewrite play_frame_set_speed.
  destruct (play_frame frames_per_beat i (self, output)) as [[s o]|];
    [|reflexivity].
  cbn [mbind outcome_bind mret outcome_ret]. apply IH.
Qed.

(** X17. Only whether the speed is zero matters: with two speeds that both
    differ from zero (backwards, half speed, double speed), [play] writes the
    same samples and moves the cursor and the envelope in the same way. *)
Theorem play_ignores_speed_value (self : Metro) (output : list float)
    (begin end_ : uint32_t) (v1 v2 : float) :
  Float.eqb v1 Float.zero = false ->
  Float.eqb v2 Float.zero = false ->
  (play (set_speed v1 self) output begin end_
     ≫= fun '(self', output') => mret (set_speed v2 self', output'))
  = play (set_speed v2 self) output begin end_.
Proof.
  intros H1 H2. unfold play.
  change (play_frames_per_beat (set_speed v1 self))
    with (play_frames_per_beat self).
  change (play_frames_per_beat (set_speed v2 self))
    with (play_frames_per_beat self).
  destruct (play_frames_per_beat self) as [f|]; [|reflexivity].
  cbn [mbind outcome_bind speed set_speed]. rewrite H1, H2.
  rewrite !play_loop_set_speed.
  destruct (play_loop f (Z.to_nat (end_ - begin)) begin (self, output))
    as [[s o]|]; reflexivity.
Qed.

(** Forwards at speed 1 and backwards at speed -1/2. *)
Lemma play_ignores_speed_value_witness :
  (play (set_speed one rolling_3) (replicate 8 one) 0 8
     ≫= fun '(self', output') => mret (set_speed (SFopp half) self', output'))
  = play (set_speed (SFopp half) rolling_3) (replicate 8 one) 0 8.
Proof.
  apply (play_ignores_speed_value rolling_3 (replicate 8 one) 0 8 one (SFopp half));
    reflexivity.
Defined.

Lemma infinite_product (s : bool) (r : double) :
  Double.mul (S754_infinity s) r = S754_nan \/
  exists s', Double.mul (S754_infinity s) r = S754_infinity s'.
Proof. destruct r; simpl; eauto. Qed.

(** X18. A tempo of zero makes rendering undefined, even with the transport
    stopped: the frames per beat are the conversion to [uint32_t] of an
    infinity or of a NaN, which [play] evaluates before it looks at the
    speed. *)
Theorem play_zero_tempo_undefined (self : Metro) (output : list float)
    (begin end_ : uint32_t) (s : bool) :
  bpm self = S754_zero s ->
  play self output begin end_ = Undefined.
Proof.
  intros Hb. unfold play, play_frames_per_beat. rewrite Hb.
  replace (Double.of_float (Float.div (Float.of_Z 60) (S754_zero s)))
    with (S754_infinity s) by (destruct s; reflexivity).
  destruct (infinite_product s (rate self)) as [-> | [s' ->]]; reflexivity.
Qed.

(** The instance at 48000 Hz after a tempo of zero. *)
Lemma play_zero_tempo_undefined_witness :
  play (set_bpm Float.zero rolling_48k) [one; one] 0 2 = Undefined.
Proof.
  apply (play_zero_tempo_undefined (set_bpm Float.zero rolling_48k) [one; one]
           0 2 false).
  reflexivity.
Defined.

(** X19. A resynchronisation at a tempo of zero (the tempo of the message,
    or the current one when the message has none) is undefined: the elapsed
    time is the conversion to [uint32_t] of an infinity or of a NaN. *)
Theorem update_position_zero_tempo_undefined (self : Metro)
    (obj : LV2_Atom_Object) (bar_beats : float) (s : bool) :
  float_body (uris self) (obj_beat obj) = Some bar_beats ->
  default (bpm self) (float_body (uris self) (obj_bpm obj)) = S754_zero s ->
  update_position self obj = Undefined.
Proof.
  intros Hbeat Hb. rewrite update_position_unfold, Hbeat.
  destruct (with_transport_fields self obj) as (_ & _ & _ & _ & Hbpm & _).
  unfold resync, sync_frames_per_beat. rewrite Hbpm, Hb.
  replace (Double.div (Double.of_Z 60) (Double.of_float (S754_zero s)))
    with (S754_infinity s) by (destruct s; reflexivity).
  destruct (infinite_product s (rate (with_transport self obj)))
    as [-> | [s' ->]];
    destruct (Float.sub bar_beats (floorf bar_beats)); reflexivity.
Qed.

(** A position of 1.5 sent together with a tempo of zero. *)
Lemma update_position_zero_tempo_undefined_witness :
  update_position rolling_48k
    (position (Some three_halves) (Some Float.zero) None) = Undefined.
Proof.
  apply (update_position_zero_tempo_undefined rolling_48k
           (position (Some three_halves) (Some Float.zero) None)
           three_halves false);
    reflexivity.
Defined.

(** ** Ranges and buffers *)

(** X20. A call of [play] on an empty range changes nothing, neither the
    instance nor the buffer: with the transport stopped or rolling when
    [end_ = begin] (two events at the same frame, an event at frame 0), and
    with the transport rolling also when [end_ < begin] (an event stamped
    before the previous one). *)
Theorem play_empty_range (self : Metro) (output : list float)
    (begin end_ frames_per_beat : uint32_t) :
  play_frames_per_beat self = Done frames_per_beat ->
  end_ = begin \/ (Float.eqb (speed self) Float.zero = false /\ end_ <= begin) ->
  play self output begin end_ = Done (self, output).
Proof.
  intros Hf H. unfold play. rewrite Hf. cbn [mbind outcome_bind].
  destruct (Float.eqb (speed self) Float.zero) eqn:Hs.
  - destruct H as [-> | [H _]]; [|discriminate].
    rewrite Z.sub_diag. change (wrap32 0) with 0. unfold memset_zero.
    destruct (Z.leb_spec 0 (Z.of_nat (length output))); [reflexivity | lia].
  - replace (Z.to_nat (end_ - begin)) with 0%nat by lia. reflexivity.
Qed.

(** An event stamped at frame 2 after one at frame 5. *)
Lemma play_empty_range_witness :
  play rolling_3 (replicate 8 one) 5 2 = Done (rolling_3, replicate 8 one).
Proof.
  apply (play_empty_range rolling_3 (replicate 8 one) 5 2 3).
  - reflexivity.
  - right. split; [reflexivity | lia].
Defined.

Lemma play_frame_outside (frames_per_beat i : uint32_t) (self : Metro)
    (output : list float) :
  ~ 0 <= i < Z.of_nat (length output) ->
  play_frame frames_per_beat i (self, output) = Undefined.
Proof.
  intros Hi.
  destruct (play_frame frames_per_beat i (self, output)) as [st|] eqn:H;
    [|reflexivity].
  exfalso. apply Hi. unfold play_frame in H.
  apply bind_Done in H as (st1 & He & _). now apply envelope_in_range in He.
Qed.

(** X21. [play] does not check its range against the buffer: with the
    transport rolling, a range that is not empty and ends past the last sample
    of the output buffer is an access outside the buffer, and the call is
    undefined. *)
Theorem play_past_buffer_undefined (self : Metro) (output : list float)
    (begin end_ frames_per_beat : uint32_t) :
  Float.eqb (speed self) Float.zero = false ->
  play_frames_per_beat self = Done frames_per_beat ->
  playable self ->
  0 <= begin < end_ ->
  Z.of_nat (length output) < end_ ->
  play self output begin end_ = Undefined.
Proof.
  intros Hs Hf Hp Hb Hend. rewrite (play_rolling _ _ _ _ _ Hs Hf).
  destruct (Z.le_gt_cases (Z.of_nat (length output)) begin) as [Hout|Hin].
  - replace (Z.to_nat (end_ - begin)) with (S (Z.to_nat (end_ - begin - 1)))
      by lia.
    cbn [play_loop]. rewrite play_frame_outside by lia. reflexivity.
  - replace (Z.to_nat (end_ - begin))
      with (Z.to_nat (Z.of_nat (length output) - begin)
            + S (Z.to_nat (end_ - Z.of_nat (length output) - 1)))%nat by lia.
    rewrite play_loop_app, play_loop_eq by (auto; lia).
    cbn [mbind outcome_bind play_loop].
    rewrite play_frame_outside; [reflexivity|].
    rewrite rolling_lengths by lia. lia.
Qed.

(** Eight frames into a buffer of six samples. *)
Lemma play_past_buffer_undefined_witness :
  play rolling_3 (replicate 6 one) 0 8 = Undefined.
Proof.
  assert (Hp : playable rolling_3)
    by (unfold playable, UINT32_MAX; simpl; lia).
  apply (play_past_buffer_undefined rolling_3 (replicate 6 one) 0 8 3
           eq_refl eq_refl Hp).
  - lia.
  - simpl. lia.
Defined.

(** X22. An instance whose wave is empty ([wave_len = 0], as [instantiate]
    builds it for a rate below 880 Hz) cannot render: with the transport
    rolling, a call of [play] on a range that is not empty is undefined (the
    remainder by [wave_len]). *)
Theorem play_empty_wave_undefined (self : Metro) (output : list float)
    (begin end_ : uint32_t) :
  wave_len self = 0 ->
  Float.eqb (speed self) Float.zero = false ->
  begin < end_ ->
  play self output begin end_ = Undefined.
Proof.
  intros Hw Hs Hb. unfold play.
  destruct (play_frames_per_beat self) as [f|]; [|reflexivity].
  cbn [mbind outcome_bind]. rewrite Hs.
  replace (Z.to_nat (end_ - begin)) with (S (Z.to_nat (end_ - begin - 1)))
    by lia.
  cbn [play_loop]. unfold play_frame.
  destruct (envelope begin (self, output)) as [[s1 o1]|] eqn:He; [|reflexivity].
  apply envelope_Done in He as ((_ & _ & _ & Hwl & _) & _).
  cbn [mbind outcome_bind]. unfold advance_wave, urem.
  rewrite <- Hwl, Hw. reflexivity.
Qed.

(** The instance built at a rate of 0 Hz, with the transport rolling. *)
Lemma play_empty_wave_undefined_witness :
  exists self,
    instantiate (fun x => x) example_host (Double.of_Z 0) = Done (Some self) /\
    play (set_speed one self) [one; one] 0 2 = Undefined.
Proof.
  eexists. split; [vm_compute; reflexivity|].
  apply play_empty_wave_undefined.
  - reflexivity.
  - reflexivity.
  - lia.
Defined.

(** ** Positions on a beat *)

Lemma whole_beat_fraction (n : Z) :
  0 <= n <= 64 ->
  Float.sub (Float.of_Z n) (floorf (Float.of_Z n)) = Float.zero.
Proof.
  intros Hn.
  assert (Hall : forallb
            (fun k : nat =>
               match Float.sub (Float.of_Z (Z.of_nat k))
                               (floorf (Float.of_Z (Z.of_nat k))) with
               | S754_zero false => true
               | _ => false
               end) (seq 0 65) = true) by (vm_compute; reflexivity).
  rewrite forallb_forall in Hall.
  specialize (Hall (Z.to_nat n)). rewrite Z2Nat.id in Hall by lia.
  assert (Hin : In (Z.to_nat n) (seq 0 65)) by (apply in_seq; lia).
  specialize (Hall Hin).
  destruct (Float.sub (Float.of_Z n) (floorf (Float.of_Z n))) as [[]| | |];
    try discriminate. reflexivity.
Qed.

(** X23. A position on a whole beat restarts the tick: when the beat
    position of the message is one of the whole numbers 0 to 64 and the frames
    per beat (at the tempo of the message, or at the current one) are finite,
    [update_position] sets [elapsed_len] to 0 and, the attack lasting at
    least one frame, the state to [STATE_ATTACK]. *)
Theorem update_position_on_the_beat (self : Metro) (obj : LV2_Atom_Object)
    (n : Z) :
  0 <= n <= 64 ->
  float_body (uris self) (obj_beat obj) = Some (Float.of_Z n) ->
  is_finite
    (Float.of_double
       (Double.mul
          (Double.div (Double.of_Z 60)
             (Double.of_float
                (default (bpm self) (float_body (uris self) (obj_bpm obj)))))
          (rate self))) = true ->
  0 < attack_len self ->
  exists self',
    update_position self obj = Done self' /\
    elapsed_len self' = 0 /\
    state self' = STATE_ATTACK.
Proof.
  intros Hn Hbeat Hfin Hat. rewrite update_position_unfold, Hbeat.
  destruct (with_transport_fields self obj)
    as ((_ & Hrate & _ & _ & Hattack & _) & _ & _ & _ & Hbpm & _).
  unfold resync, sync_frames_per_beat.
  rewrite Hbpm, <- Hrate, (whole_beat_fraction n Hn).
  destruct (Float.of_double _) as [s| | |s m e]; try discriminate.
  - eexists. split; [reflexivity|]. split; [reflexivity|].
    cbn [state set_state]. unfold sync_state.
    cbn [elapsed_len set_elapsed_len attack_len]. rewrite <- Hattack.
    destruct (0 <? attack_len self) eqn:E; [reflexivity | lia].
  - eexists. split; [reflexivity|]. split; [reflexivity|].
    cbn [state set_state]. unfold sync_state.
    cbn [elapsed_len set_elapsed_len attack_len]. rewrite <- Hattack.
    destruct (0 <? attack_len self) eqn:E; [reflexivity | lia].
Qed.

(** The third beat of a bar, at 48000 Hz and in the middle of a decay. *)
Lemma update_position_on_the_beat_witness :
  exists self',
    update_position (set_state STATE_DECAY (set_elapsed_len 500 rolling_48k))
      (position (Some (Float.of_Z 2)) None None) = Done self' /\
    elapsed_len self' = 0 /\
    state self' = STATE_ATTACK.
Proof.
  apply (update_position_on_the_beat
           (set_state STATE_DECAY (set_elapsed_len 500 rolling_48k))
           (position (Some (Float.of_Z 2)) None None) 2).
  - lia.
  - reflexivity.
  - reflexivity.
  - simpl. lia.
Defined.
